(** * llmbackendsdk: the migration runner, the chat reconciler and the
      LLM facade, embedded from [src/api/database.ts], [src/api/llm.ts],
      [storage/persistent/postgres_client.ts] and [storage/queries.ts].

    Conventions of the embedding.
    - A JavaScript [number] that holds a version or an epoch-millisecond
      timestamp is a [Z]; an optional field ([deletedAt?: number]) is an
      [option]; truthiness tests ([if (chat.deletedAt)], [x || null]) are
      written out, so that the number [0] is falsy as it is in the code.
    - The PostgreSQL server is a record [Db] of tables.  A table with a
      primary key is a finite map from the key to the remaining columns.
      [TIMESTAMPTZ] columns written through [to_timestamp(ms/1000.0)] and
      read back through [Date.getTime()] are kept as their millisecond
      value.  [created_at]/[applied_at] defaults (wall-clock time) and the
      length limits of [VARCHAR] columns are not modelled.
    - Identifiers of chats and messages are strings, as in
      [api/database.ts]; only their equality matters.
    - An asynchronous function that can throw returns a [result]; what it
      prints with [console.log]/[console.error] is returned as a list of
      [console] entries; the state of the server is passed explicitly.
    - A transaction is a working copy of [Db]: [BEGIN] takes the copy,
      [COMMIT] installs it, [ROLLBACK] drops it. *)

From Stdlib Require Import ZArith String List Lia.
From stdpp Require Import base option list gmap strings sorting.

Local Open Scope string_scope.
Local Open Scope list_scope.
Local Open Scope Z_scope.

(** ** JavaScript values that cross the API *)

Inductive exn : Type :=
| Error (message : string)
| TypeError (message : string)
| SyntaxError (message : string)
| DatabaseError (sqlstate message : string).

Inductive result (A : Type) : Type :=
| Return (a : A)
| Throw (e : exn).
Arguments Return {A} a.
Arguments Throw {A} e.

Inductive console : Type :=
| log_upgrading (fromVersion toVersion : Z)
| log_schema_version (version : Z)
| error_initialization_failed (e : exn)
| error_chat_sync_failed (e : exn)
| error_userId_mismatch (chatId chatUserId userId : string)
| error_fetching_models (e : exn)
| error_creating_completion (e : exn)
| error_generating_image (message : string).

Module Js.

(** [if (x)] and [x || null] on an optional number: [undefined], [null]
    and [0] are falsy. *)
Definition truthy (x : option Z) : bool :=
  match x with
  | Some n => negb (n =? 0)
  | None => false
  end.

Definition or_null (x : option Z) : option Z :=
  if truthy x then x else None.

(** The same on an optional string: the empty string is falsy. *)
Definition or_null_str (x : option string) : option string :=
  match x with
  | Some EmptyString => None
  | _ => x
  end.

Definition message_of (e : exn) : string :=
  match e with
  | Error m | TypeError m | SyntaxError m | DatabaseError _ m => m
  end.

End Js.

(** ** models/storage/dto *)

Module Chat.
Record t : Type := {
  chatId : string;
  userId : string;
  title : string;
  updatedAt : Z;
  deletedAt : option Z
}.
End Chat.

Module Message.
Record t : Type := {
  messageId : string;
  chatId : string;
  content : string;
  role : string;
  createdAt : Z;
  imageUrl : option string;
  prompt : option string
}.
End Message.

Global Instance exn_eq_dec : EqDecision exn.
Proof. solve_decision. Defined.
Global Instance Chat_eq_dec : EqDecision Chat.t.
Proof. solve_decision. Defined.
Global Instance Message_eq_dec : EqDecision Message.t.
Proof. solve_decision. Defined.

(** ** The store *)

(** [chats(id PK, user_id, title, updated_at NOT NULL, deleted_at NULL)] *)
Record ChatRow : Type := {
  c_user_id : string;
  c_title : string;
  c_updated_at : Z;
  c_deleted_at : option Z
}.

(** [messages(id PK, chat_id FK, content, image_url, role, prompt, created_at)] *)
Record MessageRow : Type := {
  m_chat_id : string;
  m_content : string;
  m_image_url : option string;
  m_role : string;
  m_prompt : option string;
  m_created_at : Z
}.

Global Instance ChatRow_eq_dec : EqDecision ChatRow.
Proof. solve_decision. Defined.
Global Instance MessageRow_eq_dec : EqDecision MessageRow.
Proof. solve_decision. Defined.

(** A table that has not been created yet is [None].  [user_tables] holds
    the relations that callers' upgrade procedures create (name and
    columns), as in the [users] example of the README. *)
Record Db : Type := {
  schema_versions : option (list Z);
  chats : option (gmap string ChatRow);
  messages : option (gmap string MessageRow);
  user_tables : gmap string (list string)
}.

Definition set_schema_versions (v : option (list Z)) (db : Db) : Db :=
  {| schema_versions := v; chats := chats db; messages := messages db;
     user_tables := user_tables db |}.
Definition set_chats (c : option (gmap string ChatRow)) (db : Db) : Db :=
  {| schema_versions := schema_versions db; chats := c; messages := messages db;
     user_tables := user_tables db |}.
Definition set_messages (m : option (gmap string MessageRow)) (db : Db) : Db :=
  {| schema_versions := schema_versions db; chats := chats db; messages := m;
     user_tables := user_tables db |}.
Definition set_user_tables (u : gmap string (list string)) (db : Db) : Db :=
  {| schema_versions := schema_versions db; chats := chats db;
     messages := messages db; user_tables := u |}.

Definition fresh_store : Db :=
  {| schema_versions := None; chats := None; messages := None; user_tables := ∅ |}.

(** A statement run on a client handle: its result and the state of the
    handle's transaction afterwards.  A statement that fails changes
    nothing. *)
Definition Statement (A : Type) : Type := Db → result A * Db.

(** [(client: PoolClient) => Promise<void>]: a procedure may run any
    statements on the handle before it returns or throws, so on a throw
    the second component holds its partial effects. *)
Definition Migration : Type := Db → result unit * Db.

Definition undefined_table (name : string) : exn :=
  DatabaseError "42P01" ("relation " +:+ name +:+ " does not exist").
Definition unique_violation (constraint : string) : exn :=
  DatabaseError "23505" ("duplicate key value violates unique constraint " +:+ constraint).
Definition foreign_key_violation (constraint : string) : exn :=
  DatabaseError "23503" ("insert or update violates foreign key constraint " +:+ constraint).
Definition cardinality_violation : exn :=
  DatabaseError "21000" "ON CONFLICT DO UPDATE command cannot affect row a second time".

(** ** storage/queries.ts *)
Module Queries.

(** [CREATE TABLE IF NOT EXISTS schema_versions (version INTEGER PRIMARY KEY, ...)] *)
Definition CREATE_VERSION_TABLE_QUERY : Statement unit := λ db,
  match schema_versions db with
  | Some _ => (Return tt, db)
  | None => (Return tt, set_schema_versions (Some []) db)
  end.

(** SQL [MAX]: [NULL] over no rows. *)
Definition MAX (rows : list Z) : option Z :=
  match rows with
  | [] => None
  | v :: rest => Some (fold_left Z.max rest v)
  end.

Definition COALESCE (x : option Z) (d : Z) : Z := default d x.

(** [SELECT COALESCE(MAX(version), 0) as version FROM schema_versions] *)
Definition GET_SCHEMA_VERSION_QUERY : Statement Z := λ db,
  match schema_versions db with
  | Some rows => (Return (COALESCE (MAX rows) 0), db)
  | None => (Throw (undefined_table "schema_versions"), db)
  end.

(** [INSERT INTO schema_versions (version) VALUES ($1)] *)
Definition UPDATE_SCHEMA_VERSION_QUERY (version : Z) : Statement unit := λ db,
  match schema_versions db with
  | Some rows =>
      if bool_decide (version ∈ rows)
      then (Throw (unique_violation "schema_versions_pkey"), db)
      else (Return tt, set_schema_versions (Some (rows ++ [version])) db)
  | None => (Throw (undefined_table "schema_versions"), db)
  end.

(** [CREATE TABLE IF NOT EXISTS chats (...)] *)
Definition CREATE_CHATS_TABLE_QUERY : Statement unit := λ db,
  match chats db with
  | Some _ => (Return tt, db)
  | None => (Return tt, set_chats (Some ∅) db)
  end.

(** [CREATE TABLE IF NOT EXISTS messages (... chat_id INTEGER NOT NULL
    REFERENCES chats(id) ON DELETE CASCADE ...)] *)
Definition CREATE_MESSAGES_TABLE_QUERY : Statement unit := λ db,
  match messages db with
  | Some _ => (Return tt, db)
  | None =>
      match chats db with
      | Some _ => (Return tt, set_messages (Some ∅) db)
      | None => (Throw (undefined_table "chats"), db)
      end
  end.

(** [CREATE INDEX IF NOT EXISTS ... ON chats(...)]: indexes do not change
    what a query returns; the statement needs its table. *)
Definition INDEX_CHATS : Statement unit := λ db,
  match chats db with
  | Some _ => (Return tt, db)
  | None => (Throw (undefined_table "chats"), db)
  end.

Definition INDEX_MESSAGES : Statement unit := λ db,
  match messages db with
  | Some _ => (Return tt, db)
  | None => (Throw (undefined_table "messages"), db)
  end.

(** *** Chats *)

(** [$2::BIGINT IS NULL OR c.updated_at > to_timestamp($2::BIGINT/1000.0)] *)
Definition updated_after (watermark : option Z) (updated_at : Z) : bool :=
  match watermark with
  | None => true
  | Some w => bool_decide (w < updated_at)
  end.

(** [ORDER BY c.updated_at DESC].  SQL leaves the order of rows with
    equal keys open; the model keeps them in table order. *)
Definition updated_at_desc (r1 r2 : string * ChatRow) : Prop :=
  c_updated_at r2.2 ≤ c_updated_at r1.2.
Global Instance updated_at_desc_dec : RelDecision updated_at_desc.
Proof. intros r1 r2. unfold updated_at_desc. apply _. Defined.

Definition invalid_limit : exn :=
  DatabaseError "2201W" "LIMIT must not be negative".
Definition invalid_offset : exn :=
  DatabaseError "2201X" "OFFSET must not be negative".

(** [SELECT c.id, c.user_id, c.title, c.updated_at, c.deleted_at
     FROM chats c WHERE c.user_id = $1 AND ($2 IS NULL OR ...)
     ORDER BY c.updated_at DESC LIMIT $3 OFFSET $4] *)
Definition GET_CHATS_BY_USER_ID_QUERY (user_id : string) (watermark : option Z)
    (limit offset : Z) : Statement (list (string * ChatRow)) := λ db,
  match chats db with
  | None => (Throw (undefined_table "chats"), db)
  | Some table =>
      if bool_decide (limit < 0) then (Throw invalid_limit, db)
      else if bool_decide (offset < 0) then (Throw invalid_offset, db)
      else
        let selected :=
          List.filter
            (λ r, bool_decide (c_user_id r.2 = user_id)
                  && updated_after watermark (c_updated_at r.2))
            (map_to_list table) in
        let ordered := merge_sort updated_at_desc selected in
        (Return (take (Z.to_nat limit) (drop (Z.to_nat offset) ordered)), db)
  end.

(** [SELECT UNNEST($1) as id, UNNEST($2) as user_id, UNNEST($3) as title,
     UNNEST($4) as updated_at, UNNEST($5) as deleted_at]: the arrays
    zipped positionally (every caller passes arrays of one length). *)
Fixpoint UNNEST5 (ids users titles : list string) (updated_ats : list Z)
    (deleted_ats : list (option Z)) : list (string * ChatRow) :=
  match ids, users, titles, updated_ats, deleted_ats with
  | id :: ids, u :: users, t :: titles, up :: updated_ats, del :: deleted_ats =>
      (id, {| c_user_id := u; c_title := t; c_updated_at := up;
              c_deleted_at := del |})
      :: UNNEST5 ids users titles updated_ats deleted_ats
  | _, _, _, _, _ => []
  end.

(** One proposed row of [INSERT ... ON CONFLICT (id) DO UPDATE SET
    user_id = EXCLUDED.user_id, title = ..., updated_at = ...,
    deleted_at = ...]: every modelled column is replaced. *)
Definition upsert_row (table : gmap string ChatRow) (r : string * ChatRow)
    : gmap string ChatRow :=
  <[r.1 := r.2]> table.

(** [UPSERT_CHATS_QUERY].  PostgreSQL refuses a command that proposes
    two rows with one id ("cannot affect row a second time"). *)
Definition UPSERT_CHATS_QUERY (ids users titles : list string)
    (updated_ats : list Z) (deleted_ats : list (option Z)) : Statement unit := λ db,
  match chats db with
  | None => (Throw (undefined_table "chats"), db)
  | Some table =>
      let proposed := UNNEST5 ids users titles updated_ats deleted_ats in
      if bool_decide (NoDup proposed.*1)
      then (Return tt, set_chats (Some (fold_left upsert_row proposed table)) db)
      else (Throw cardinality_violation, db)
  end.

(** *** Messages *)

(** [DELETE FROM messages WHERE chat_id = ANY($1)] *)
Definition DELETE_MESSAGES_BY_CHAT_IDS (chat_ids : list string) : Statement unit := λ db,
  match messages db with
  | None => (Throw (undefined_table "messages"), db)
  | Some table =>
      (Return tt,
       set_messages (Some (filter (λ kv, m_chat_id kv.2 ∉ chat_ids) table)) db)
  end.

(** The foreign key [messages.chat_id REFERENCES chats(id)], checked at
    the end of the statement on the rows it inserted. *)
Definition references_chat (db : Db) (r : MessageRow) : bool :=
  match chats db with
  | Some table => bool_decide (is_Some (table !! m_chat_id r))
  | None => false
  end.

(** [INSERT INTO messages (id, chat_id, content, role, created_at,
     image_url, prompt) VALUES ($1, ..., $7)]: no [ON CONFLICT] clause. *)
Definition ADD_MESSAGE_QUERY (id : string) (r : MessageRow) : Statement unit := λ db,
  match messages db with
  | None => (Throw (undefined_table "messages"), db)
  | Some table =>
      if bool_decide (is_Some (table !! id))
      then (Throw (unique_violation "messages_pkey"), db)
      else if references_chat db r
      then (Return tt, set_messages (Some (<[id := r]> table)) db)
      else (Throw (foreign_key_violation "messages_chat_id_fkey"), db)
  end.

Fixpoint UNNEST7 (ids chat_ids contents roles : list string)
    (created_ats : list Z) (image_urls prompts : list (option string))
    : list (string * MessageRow) :=
  match ids, chat_ids, contents, roles, created_ats, image_urls, prompts with
  | id :: ids, c :: chat_ids, t :: contents, r :: roles, cr :: created_ats,
    i :: image_urls, p :: prompts =>
      (id, {| m_chat_id := c; m_content := t; m_image_url := i; m_role := r;
              m_prompt := p; m_created_at := cr |})
      :: UNNEST7 ids chat_ids contents roles created_ats image_urls prompts
  | _, _, _, _, _, _, _ => []
  end.

(** One proposed row of [INSERT ... ON CONFLICT (id) DO NOTHING]: the
    table and the rows inserted so far by this command. *)
Definition insert_or_skip (acc : gmap string MessageRow * list MessageRow)
    (r : string * MessageRow) : gmap string MessageRow * list MessageRow :=
  match acc.1 !! r.1 with
  | Some _ => acc
  | None => (<[r.1 := r.2]> acc.1, acc.2 ++ [r.2])
  end.

(** [ADD_MESSAGES_QUERY] *)
Definition ADD_MESSAGES_QUERY (ids chat_ids contents roles : list string)
    (created_ats : list Z) (image_urls prompts : list (option string))
    : Statement unit := λ db,
  match messages db with
  | None => (Throw (undefined_table "messages"), db)
  | Some table =>
      let proposed :=
        UNNEST7 ids chat_ids contents roles created_ats image_urls prompts in
      let '(table', inserted) := fold_left insert_or_skip proposed (table, []) in
      if forallb (references_chat db) inserted
      then (Return tt, set_messages (Some table') db)
      else (Throw (foreign_key_violation "messages_chat_id_fkey"), db)
  end.

(** *** The remaining statements *)

(** The rows a [WHERE c.user_id = $1 AND ($2 IS NULL OR c.updated_at >
    to_timestamp($2/1000.0))] keeps. *)
Definition chats_of_user (user_id : string) (watermark : option Z)
    (table : gmap string ChatRow) : list (string * ChatRow) :=
  List.filter
    (λ r, bool_decide (c_user_id r.2 = user_id)
          && updated_after watermark (c_updated_at r.2))
    (map_to_list table).

(** [SELECT COUNT( * ) as total FROM chats c WHERE c.user_id = $1
     AND ($2 IS NULL OR ...)]: the one row's [total]. *)
Definition COUNT_CHATS_BY_USER_ID_QUERY (user_id : string) (watermark : option Z)
    : Statement Z := λ db,
  match chats db with
  | None => (Throw (undefined_table "chats"), db)
  | Some table =>
      (Return (Z.of_nat (length (chats_of_user user_id watermark table))), db)
  end.

(** [INSERT INTO chats (id, user_id, title, updated_at, deleted_at)
     VALUES ($1, $2, $3, to_timestamp($4), CASE WHEN $5 IS NULL ...)] *)
Definition ADD_CHAT_QUERY (id : string) (r : ChatRow) : Statement unit := λ db,
  match chats db with
  | None => (Throw (undefined_table "chats"), db)
  | Some table =>
      if bool_decide (is_Some (table !! id))
      then (Throw (unique_violation "chats_pkey"), db)
      else (Return tt, set_chats (Some (<[id := r]> table)) db)
  end.

(** [ADD_CHATS_QUERY]: the bulk insert without [ON CONFLICT]; a proposed
    row whose id the table has, or that another proposed row has,
    violates the primary key and the statement inserts nothing. *)
Definition ADD_CHATS_QUERY (ids users titles : list string)
    (updated_ats : list Z) (deleted_ats : list (option Z)) : Statement unit := λ db,
  match chats db with
  | None => (Throw (undefined_table "chats"), db)
  | Some table =>
      let proposed := UNNEST5 ids users titles updated_ats deleted_ats in
      if bool_decide (NoDup proposed.*1)
         && forallb (λ r, bool_decide (table !! r.1 = None)) proposed
      then (Return tt, set_chats (Some (fold_left upsert_row proposed table)) db)
      else (Throw (unique_violation "chats_pkey"), db)
  end.

(** [UPDATE chats SET title = $1, updated_at = to_timestamp($2/1000.0)
     WHERE id = $3] *)
Definition RENAME_CHAT_QUERY (title : string) (updated_at : Z) (id : string)
    : Statement unit := λ db,
  match chats db with
  | None => (Throw (undefined_table "chats"), db)
  | Some table =>
      (Return tt,
       set_chats
         (Some (alter (λ r, {| c_user_id := c_user_id r; c_title := title;
                               c_updated_at := updated_at;
                               c_deleted_at := c_deleted_at r |}) id table)) db)
  end.

(** [DELETE FROM chats WHERE id = $1]; the deletion of a row cascades to
    the messages that reference it ([ON DELETE CASCADE]). *)
Definition DELETE_CHAT_QUERY (id : string) : Statement unit := λ db,
  match chats db with
  | None => (Throw (undefined_table "chats"), db)
  | Some table =>
      match table !! id with
      | None => (Return tt, db)
      | Some _ =>
          (Return tt,
           set_messages
             (filter (λ kv : string * MessageRow, m_chat_id kv.2 ≠ id)
                <$> messages db)
             (set_chats (Some (delete id table)) db))
      end
  end.

(** [ORDER BY created_at ASC] *)
Definition created_at_asc (r1 r2 : string * MessageRow) : Prop :=
  m_created_at r1.2 ≤ m_created_at r2.2.
Global Instance created_at_asc_dec : RelDecision created_at_asc.
Proof. intros r1 r2. unfold created_at_asc. apply _. Defined.

(** [SELECT id, chat_id, content, role, image_url, prompt, created_at
     FROM messages WHERE chat_id = ANY($1) ORDER BY created_at ASC] *)
Definition GET_MESSAGES_BY_CHAT_IDS_QUERY (chat_ids : list string)
    : Statement (list (string * MessageRow)) := λ db,
  match messages db with
  | None => (Throw (undefined_table "messages"), db)
  | Some table =>
      (Return
         (merge_sort created_at_asc
            (List.filter (λ r, bool_decide (m_chat_id r.2 ∈ chat_ids))
               (map_to_list table))), db)
  end.

(** [SELECT COUNT( * ) as total FROM messages m JOIN chats c
     ON m.chat_id = c.id WHERE c.user_id = $1
     AND ($2 IS NULL OR m.created_at > to_timestamp($2/1000.0))] *)
Definition COUNT_MESSAGES_BY_USER_ID_QUERY (user_id : string)
    (watermark : option Z) : Statement Z := λ db,
  match messages db, chats db with
  | Some table, Some chat_table =>
      (Return
         (Z.of_nat
            (length
               (List.filter
                  (λ r : string * MessageRow,
                     match chat_table !! m_chat_id r.2 with
                     | Some c =>
                         bool_decide (c_user_id c = user_id)
                         && updated_after watermark (m_created_at r.2)
                     | None => false
                     end)
                  (map_to_list table)))), db)
  | None, _ => (Throw (undefined_table "messages"), db)
  | _, None => (Throw (undefined_table "chats"), db)
  end.

End Queries.

(** Statements awaited one after the other on the same handle. *)
Definition and_then {A B : Type} (s : Statement A) (k : A → Statement B) : Statement B :=
  λ db, match s db with
        | (Return a, db') => k a db'
        | (Throw e, db') => (Throw e, db')
        end.
Notation "s1 ;; s2" := (and_then s1 (λ _, s2))
  (at level 100, s2 at level 200, right associativity).

(** [BEGIN], [COMMIT] and [ROLLBACK] on a handle whose transaction holds
    the working copy [tx] of the committed state [db]. *)
Definition BEGIN (db : Db) : Db := db.
Definition COMMIT (tx db : Db) : Db := tx.
Definition ROLLBACK (tx db : Db) : Db := db.

(** ** storage/persistent/postgres_client.ts *)
Module PostgresClient.

Record t : Type := { migrations : gmap Z Migration }.

Definition createChatsTable : Statement unit := Queries.CREATE_CHATS_TABLE_QUERY.
Definition createMessagesTable : Statement unit := Queries.CREATE_MESSAGES_TABLE_QUERY.

Definition registerMigration (fromVersion : Z) (migrationFn : Migration) (this : t) : t :=
  {| migrations := <[fromVersion := migrationFn]> (migrations this) |}.

(** The default migration of the constructor. *)
Definition default_migration : Migration :=
  (createChatsTable ;; createMessagesTable ;;
   Queries.INDEX_CHATS ;; Queries.INDEX_MESSAGES).

Definition constructor : t :=
  registerMigration 0 default_migration {| migrations := ∅ |}.

(** [while (this.migrations.has(currentVersion)) { ... }] on the
    transaction's handle.  The loop is cut after [fuel] tests of its
    condition; [upgrade_loop_total] shows that the fuel
    [initializeDatabase] passes is never used up. *)
Fixpoint upgrade_loop (fuel : nat) (migrations : gmap Z Migration)
    (currentVersion : Z) (tx : Db) (out : list console)
    : option (result Z * Db * list console) :=
  match fuel with
  | O => None
  | S fuel =>
      match migrations !! currentVersion with
      | None => Some (Return currentVersion, tx, out)
      | Some migration =>
          let out := out ++ [log_upgrading currentVersion (currentVersion + 1)] in
          match migration tx with
          | (Throw e, tx) => Some (Throw e, tx, out)
          | (Return _, tx) =>
              let currentVersion := currentVersion + 1 in
              match Queries.UPDATE_SCHEMA_VERSION_QUERY currentVersion tx with
              | (Throw e, tx) => Some (Throw e, tx, out)
              | (Return _, tx) => upgrade_loop fuel migrations currentVersion tx out
              end
          end
      end
  end.

(** The [try] block of [initializeDatabase], after [BEGIN]. *)
Definition initializeDatabase_try (this : t) (tx : Db)
    : option (result Z * Db * list console) :=
  match Queries.CREATE_VERSION_TABLE_QUERY tx with
  | (Throw e, tx) => Some (Throw e, tx, [])
  | (Return _, tx) =>
      match Queries.GET_SCHEMA_VERSION_QUERY tx with
      | (Throw e, tx) => Some (Throw e, tx, [])
      | (Return currentVersion, tx) =>
          upgrade_loop (S (size (migrations this))) (migrations this)
            currentVersion tx []
      end
  end.

Definition initializeDatabase (this : t) (db : Db)
    : option (result unit * Db * list console) :=
  match initializeDatabase_try this (BEGIN db) with
  | None => None
  | Some (Return currentVersion, tx, out) =>
      Some (Return tt, COMMIT tx db, out ++ [log_schema_version currentVersion])
  | Some (Throw e, tx, out) =>
      Some (Throw e, ROLLBACK tx db, out ++ [error_initialization_failed e])
  end.

(** [this.query(text, params)]: one statement on a handle of its own,
    committed on success. *)
Definition query {A : Type} (statement : Statement A) (db : Db) : result A * Db :=
  statement db.

(** [getChatsByUserId(userId, updatedAfter?, limit = 20, page = 0)] *)
Definition getChatsByUserId (userId : string) (updatedAfter : option Z)
    (limit page : option Z) (db : Db) : result (list Chat.t) :=
  let limit := default 20 limit in
  let page := default 0 page in
  let offset := page * limit in
  match query (Queries.GET_CHATS_BY_USER_ID_QUERY userId (Js.or_null updatedAfter)
                 limit offset) db with
  | (Throw e, _) => Throw e
  | (Return rows, _) =>
      Return ((λ chat : string * ChatRow,
                 {| Chat.chatId := chat.1;
                    Chat.userId := c_user_id chat.2;
                    Chat.title := c_title chat.2;
                    Chat.updatedAt := c_updated_at chat.2;
                    Chat.deletedAt := c_deleted_at chat.2 |}) <$> rows)
  end.

(** The [try] block of [syncChats], on the transaction's handle. *)
Definition syncChats_try (chatsToSync : list Chat.t) (chatsToDelete : list string)
    : Statement unit :=
  (if bool_decide (0 < length chatsToSync)%nat
   then
     let chatIds := Chat.chatId <$> chatsToSync in
     let userIds := Chat.userId <$> chatsToSync in
     let titles := Chat.title <$> chatsToSync in
     let updatedAts := Chat.updatedAt <$> chatsToSync in
     let deletedAts := (λ chat, Js.or_null (Chat.deletedAt chat)) <$> chatsToSync in
     Queries.UPSERT_CHATS_QUERY chatIds userIds titles updatedAts deletedAts
   else (λ tx, (Return tt, tx))) ;;
  (if bool_decide (0 < length chatsToDelete)%nat
   then Queries.DELETE_MESSAGES_BY_CHAT_IDS chatsToDelete
   else (λ tx, (Return tt, tx))).

Definition syncChats (chatsToSync : list Chat.t) (chatsToDelete : list string)
    (db : Db) : result unit * Db * list console :=
  if bool_decide (length chatsToSync = 0%nat) && bool_decide (length chatsToDelete = 0%nat)
  then (Return tt, db, [])
  else
    match syncChats_try chatsToSync chatsToDelete (BEGIN db) with
    | (Return _, tx) => (Return tt, COMMIT tx db, [])
    | (Throw e, tx) => (Throw e, ROLLBACK tx db, [error_chat_sync_failed e])
    end.

Definition addMessage (messageId chatId content role : string) (createdAt : Z)
    (imageUrl prompt : option string) (db : Db) : result unit * Db :=
  query (Queries.ADD_MESSAGE_QUERY messageId
           {| m_chat_id := chatId; m_content := content;
              m_image_url := Js.or_null_str imageUrl; m_role := role;
              m_prompt := Js.or_null_str prompt; m_created_at := createdAt |}) db.

Definition addMessages (messages : list Message.t) (db : Db) : result unit * Db :=
  if bool_decide (length messages = 0%nat) then (Return tt, db)
  else
    let messageIds := Message.messageId <$> messages in
    let chatIds := Message.chatId <$> messages in
    let contents := Message.content <$> messages in
    let roles := Message.role <$> messages in
    let createdAts := Message.createdAt <$> messages in
    let imageUrls := (λ message, Js.or_null_str (Message.imageUrl message)) <$> messages in
    let prompts := (λ message, Js.or_null_str (Message.prompt message)) <$> messages in
    query (Queries.ADD_MESSAGES_QUERY messageIds chatIds contents roles createdAts
             imageUrls prompts) db.

(** [const chatObject = { chatId: chat.id, userId: chat.user_id, ... }]
    of [getChatsByUserId]. *)
Definition chat_of_row (chat : string * ChatRow) : Chat.t :=
  {| Chat.chatId := chat.1;
     Chat.userId := c_user_id chat.2;
     Chat.title := c_title chat.2;
     Chat.updatedAt := c_updated_at chat.2;
     Chat.deletedAt := c_deleted_at chat.2 |}.

(** [parseInt(result.rows[0].total, 10)] of the count the driver gives
    as a decimal string. *)
Definition countChatsByUserId (userId : string) (updatedAfter : option Z)
    (db : Db) : result Z :=
  (query (Queries.COUNT_CHATS_BY_USER_ID_QUERY userId (Js.or_null updatedAfter)) db).1.

Definition addChat (chatId title userId : string) (updatedAt : Z)
    (deletedAt : option Z) (db : Db) : result unit * Db :=
  query (Queries.ADD_CHAT_QUERY chatId
           {| c_user_id := userId; c_title := title; c_updated_at := updatedAt;
              c_deleted_at := Js.or_null deletedAt |}) db.

Definition addChats (chats : list Chat.t) (db : Db) : result unit * Db :=
  if bool_decide (length chats = 0%nat) then (Return tt, db)
  else
    let chatIds := Chat.chatId <$> chats in
    let userIds := Chat.userId <$> chats in
    let titles := Chat.title <$> chats in
    let updatedAts := Chat.updatedAt <$> chats in
    let deletedAts := (λ chat, Js.or_null (Chat.deletedAt chat)) <$> chats in
    query (Queries.ADD_CHATS_QUERY chatIds userIds titles updatedAts deletedAts) db.

Definition countMessagesByUserId (userId : string) (updatedAfter : option Z)
    (db : Db) : result Z :=
  (query (Queries.COUNT_MESSAGES_BY_USER_ID_QUERY userId (Js.or_null updatedAfter))
     db).1.

Definition getMessagesByChatIds (chatIds : list string) (db : Db)
    : result (list (string * MessageRow)) :=
  (query (Queries.GET_MESSAGES_BY_CHAT_IDS_QUERY chatIds) db).1.

Definition renameChat (chatId title : string) (updatedAt : Z) (db : Db)
    : result unit * Db :=
  query (Queries.RENAME_CHAT_QUERY title updatedAt chatId) db.

Definition deleteChat (chatId : string) (db : Db) : result unit * Db :=
  query (Queries.DELETE_CHAT_QUERY chatId) db.

End PostgresClient.

(** ** api/database.ts *)
Module DatabaseApi.

(** [let databaseClient: DatabaseClient | null = null] of the module,
    next to the server its pool connects to. *)
Record World : Type := {
  server : Db;
  databaseClient : option PostgresClient.t
}.

Definition set_server (db : Db) (w : World) : World :=
  {| server := db; databaseClient := databaseClient w |}.

Definition not_initialized : exn :=
  Error "Database client not initialized. Call initializeDatabase first.".

Definition isDatabaseClientSet (w : World) : bool :=
  match databaseClient w with
  | Some _ => true
  | None => false
  end.

(** [registerMigrations] is the [Map]'s entries in insertion order. *)
Definition initializeDatabase (registerMigrations : option (list (Z * Migration)))
    (w : World) : option (result unit * World * list console) :=
  let client := PostgresClient.constructor in
  let client :=
    match registerMigrations with
    | Some entries =>
        fold_left
          (λ client entry, PostgresClient.registerMigration entry.1 entry.2 client)
          entries client
    | None => client
    end in
  match PostgresClient.initializeDatabase client (server w) with
  | None => None
  | Some (r, db, out) =>
      Some (r, {| server := db; databaseClient := Some client |}, out)
  end.

(** [new Map(dbChats?.map(chat => [chat.chatId, chat]))]: entries are set
    one after the other, a later entry replaces an earlier one. *)
Definition Map_of (dbChats : list Chat.t) : gmap string Chat.t :=
  fold_left (λ map chat, <[Chat.chatId chat := chat]> map) dbChats ∅.

(** The callback of [chats.forEach] in [syncChats]; [acc] holds
    [chatsToSync], [chatsToDelete] and what was printed. *)
Definition reconcile_step (userId : string) (dbChatsMap : gmap string Chat.t)
    (acc : list Chat.t * list string * list console) (chat : Chat.t)
    : list Chat.t * list string * list console :=
  let '(chatsToSync, chatsToDelete, out) := acc in
  if bool_decide (Chat.userId chat ≠ userId)
  then (chatsToSync, chatsToDelete,
        out ++ [error_userId_mismatch (Chat.chatId chat) (Chat.userId chat) userId])
  else
    match dbChatsMap !! Chat.chatId chat with
    | Some dbChat =>
        if negb (Js.truthy (Chat.deletedAt dbChat))
        then
          if Js.truthy (Chat.deletedAt chat)
          then (chatsToSync ++ [chat], chatsToDelete ++ [Chat.chatId chat], out)
          else if bool_decide (Chat.updatedAt chat > Chat.updatedAt dbChat)
          then (chatsToSync ++ [chat], chatsToDelete, out)
          else acc
        else acc
    | None =>
        if Js.truthy (Chat.deletedAt chat)
        then (chatsToSync ++ [chat], chatsToDelete ++ [Chat.chatId chat], out)
        else (chatsToSync ++ [chat], chatsToDelete, out)
    end.

(** [chats.forEach(...)] from empty [chatsToSync] and [chatsToDelete]. *)
Definition reconcile (userId : string) (dbChats : list Chat.t) (chats : list Chat.t)
    : list Chat.t * list string * list console :=
  fold_left (reconcile_step userId (Map_of dbChats)) chats ([], [], []).

Definition syncChats (userId : string) (chats : list Chat.t) (updatedAt : option Z)
    (w : World) : result unit * World * list console :=
  if negb (isDatabaseClientSet w) then (Throw not_initialized, w, [])
  else if bool_decide (length chats = 0%nat) then (Return tt, w, [])
  else
    match PostgresClient.getChatsByUserId userId updatedAt None None (server w) with
    | Throw e => (Throw e, w, [])
    | Return dbChats =>
        let '(chatsToSync, chatsToDelete, out) := reconcile userId dbChats chats in
        let '(r, db, out') :=
          PostgresClient.syncChats chatsToSync chatsToDelete (server w) in
        (r, set_server db w, out ++ out')
    end.

Definition addMessage (messageId chatId content role : string) (createdAt : Z)
    (imageUrl prompt : option string) (w : World) : result unit * World :=
  if negb (isDatabaseClientSet w) then (Throw not_initialized, w)
  else
    let '(r, db) :=
      PostgresClient.addMessage messageId chatId content role createdAt
        imageUrl prompt (server w) in
    (r, set_server db w).

Definition addMessages (messages : list Message.t) (w : World) : result unit * World :=
  if negb (isDatabaseClientSet w) then (Throw not_initialized, w)
  else
    let '(r, db) := PostgresClient.addMessages messages (server w) in
    (r, set_server db w).

Definition addChats (chats : list Chat.t) (w : World) : result unit * World :=
  if negb (isDatabaseClientSet w) then (Throw not_initialized, w)
  else
    let '(r, db) := PostgresClient.addChats chats (server w) in
    (r, set_server db w).

Definition renameChat (chatId title : string) (updatedAt : Z) (w : World)
    : result unit * World :=
  if negb (isDatabaseClientSet w) then (Throw not_initialized, w)
  else
    let '(r, db) := PostgresClient.renameChat chatId title updatedAt (server w) in
    (r, set_server db w).

Definition deleteChat (chatId : string) (w : World) : result unit * World :=
  if negb (isDatabaseClientSet w) then (Throw not_initialized, w)
  else
    let '(r, db) := PostgresClient.deleteChat chatId (server w) in
    (r, set_server db w).

Definition getMessagesByChatIds (chatIds : list string) (w : World)
    : result (list (string * MessageRow)) :=
  if negb (isDatabaseClientSet w) then Throw not_initialized
  else PostgresClient.getMessagesByChatIds chatIds (server w).

End DatabaseApi.

(** ** api/llm.ts *)
Module Llm.

(** A parsed JSON value.  A number is kept as the text JavaScript
    prints for it. *)
#[warnings="-register-all"] Inductive Json : Type :=
| JNull
| JBool (b : bool)
| JNumber (shown : string)
| JString (s : string)
| JArray (items : list Json)
| JObject (members : list (string * Json)).

(** What [fetch] resolves to.  [json] is what [await response.json()]
    gives (it rejects on a missing or malformed body); [body] is the
    readable stream, [None] when the response has none, as the chunks
    it delivers, each already in the text [TextDecoder.decode] makes
    of it. *)
Record Response : Type := {
  status : Z;
  json : result Json;
  body : option (list string)
}.

(** [response.ok] *)
Definition ok (response : Response) : bool :=
  bool_decide (200 ≤ status response) && bool_decide (status response ≤ 299).

(** A JavaScript value read out of the parsed body. *)
Inductive value : Type :=
| undefined
| of_json (j : Json).

Fixpoint member (name : string) (members : list (string * Json)) : value :=
  match members with
  | [] => undefined
  | (k, j) :: rest =>
      match member name rest with
      | undefined => if bool_decide (k = name) then of_json j else undefined
      | found => found
      end
  end.

(** [x.name] for a name that no primitive or array has. *)
Definition get (x : value) (name : string) : result value :=
  match x with
  | undefined =>
      Throw (TypeError ("Cannot read properties of undefined (reading '"
                          +:+ name +:+ "')"))
  | of_json JNull =>
      Throw (TypeError ("Cannot read properties of null (reading '"
                          +:+ name +:+ "')"))
  | of_json (JObject members) => Return (member name members)
  | of_json _ => Return undefined
  end.

Definition join (shown : list string) : string :=
  match shown with
  | [] => EmptyString
  | s :: rest => fold_left (λ acc t, acc +:+ "," +:+ t) rest s
  end.

(** [String(j)], as a template literal applies it. *)
Fixpoint to_string (j : Json) : string :=
  match j with
  | JNull => "null"
  | JBool true => "true"
  | JBool false => "false"
  | JNumber shown => shown
  | JString s => s
  | JArray items =>
      join ((fix each (items : list Json) : list string :=
               match items with
               | [] => []
               | JNull :: rest => EmptyString :: each rest
               | item :: rest => to_string item :: each rest
               end) items)
  | JObject _ => "[object Object]"
  end.

Definition template (x : value) : string :=
  match x with
  | undefined => "undefined"
  | of_json j => to_string j
  end.

Definition bind {A B : Type} (r : result A) (k : A → result B) : result B :=
  match r with
  | Return a => k a
  | Throw e => Throw e
  end.

(** [const errJson = await response.json();
     throw new Error(`HTTP error! status: ${errJson.error.message}`)] *)
Definition throw_http_error {A : Type} (response : Response) : result A :=
  bind (json response) (λ errJson,
  bind (get (of_json errJson) "error") (λ error,
  bind (get error "message") (λ message,
  Throw (Error ("HTTP error! status: " +:+ template message))))).

(** The body of the [try] of [getModels], [getCompletion] and
    [generateImage], which differ in the request they send. *)
Definition request (fetched : result Response) : result Json :=
  bind fetched (λ response,
    if negb (ok response) then throw_http_error response
    else json response).

Definition getModels (fetched : result Response) : result Json * list console :=
  match request fetched with
  | Return models => (Return models, [])
  | Throw error => (Throw error, [error_fetching_models error])
  end.

Definition getCompletion (fetched : result Response) : result Json * list console :=
  match request fetched with
  | Return completion => (Return completion, [])
  | Throw error => (Throw error, [error_creating_completion error])
  end.

Definition generateImage (fetched : result Response) : result Json * list console :=
  match request fetched with
  | Return data => (Return data, [])
  | Throw error => (Throw error, [error_generating_image (Js.message_of error)])
  end.

(** [streamCompletion]: the chunks the generator yields and how it
    ends.  There is no test of [res.ok]. *)
Definition streamCompletion (fetched : result Response) : list string * result unit :=
  match fetched with
  | Throw e => ([], Throw e)
  | Return res =>
      match body res with
      | None => ([], Throw (Error "No streamable response"))
      | Some chunks => (chunks, Return tt)
      end
  end.

End Llm.

(** The version a store records: what [GET_SCHEMA_VERSION_QUERY] reads
    once the version table is ensured, [0] on a fresh store. *)
Definition recorded_version (db : Db) : Z :=
  match schema_versions db with
  | Some rows => Queries.COALESCE (Queries.MAX rows) 0
  | None => 0
  end.

(** Upgrade procedures in the style of the README. *)
Module Ddl.

Definition duplicate_column (name : string) : exn :=
  DatabaseError "42701" ("column " +:+ name +:+ " already exists").

Definition CREATE_TABLE_IF_NOT_EXISTS (name : string) (columns : list string)
    : Statement unit := λ db,
  match user_tables db !! name with
  | Some _ => (Return tt, db)
  | None => (Return tt, set_user_tables (<[name := columns]> (user_tables db)) db)
  end.

Definition ALTER_TABLE_ADD_COLUMN (name column : string) : Statement unit := λ db,
  match user_tables db !! name with
  | None => (Throw (undefined_table name), db)
  | Some columns =>
      if bool_decide (column ∈ columns)
      then (Throw (duplicate_column column), db)
      else (Return tt,
            set_user_tables (<[name := columns ++ [column]]> (user_tables db)) db)
  end.

Definition create_users : Migration :=
  CREATE_TABLE_IF_NOT_EXISTS "users"
    ["id"; "title"; "user_id"; "updated_at"; "deleted_at"].
Definition add_username : Migration :=
  ALTER_TABLE_ADD_COLUMN "users" "username".

End Ddl.

(** The client of the README (procedures for versions 1 and 2 next to
    the default one), and a client whose procedure for version 1 alters
    a table that was never created. *)
Definition readme_client : PostgresClient.t :=
  PostgresClient.registerMigration 2 Ddl.add_username
    (PostgresClient.registerMigration 1 Ddl.create_users PostgresClient.constructor).
Definition failing_client : PostgresClient.t :=
  PostgresClient.registerMigration 1 Ddl.add_username PostgresClient.constructor.


(** [applied m v tx vs tx']: starting at version [v] on the transaction
    state [tx], the procedures registered for the versions [vs] ran to
    completion one after the other, each followed by the insertion of the
    next version number, and left the transaction in [tx']. *)
Inductive applied (m : gmap Z Migration) : Z → Db → list Z → Db → Prop :=
| applied_nil v tx : applied m v tx [] tx
| applied_cons v tx p tx1 tx2 vs tx' :
    m !! v = Some p →
    p tx = (Return tt, tx1) →
    Queries.UPDATE_SCHEMA_VERSION_QUERY (v + 1) tx1 = (Return tt, tx2) →
    applied m (v + 1) tx2 vs tx' →
    applied m v tx (v :: vs) tx'.

(** The contract on upgrade procedures (spec 4.1: "a sequence of
    schema-mutating operations"): a procedure that returns leaves the
    rows of the runner's own version table as it found them. *)
Definition keeps_version_table (m : gmap Z Migration) : Prop :=
  ∀ v p tx tx', m !! v = Some p → p tx = (Return tt, tx') →
    schema_versions tx' = schema_versions tx.

Definition upgrading (vs : list Z) : list console :=
  (λ v, log_upgrading v (v + 1)) <$> vs.

(** The [k] consecutive versions [v], [v + 1], ..., [v + k - 1]. *)
Fixpoint versions_from (v : Z) (k : nat) : list Z :=
  match k with
  | O => []
  | S k => v :: versions_from (v + 1) k
  end.

(** The registered procedures at or after version [v]: what is left for
    the loop to visit. *)
Definition registered_from (m : gmap Z Migration) (v : Z) : gmap Z Migration :=
  filter (λ kv, v ≤ kv.1) m.

(** The transaction of [initializeDatabase] when its loop starts: the
    working copy after the idempotent creation of the version table. *)
Definition walk_start (db : Db) : Db :=
  (Queries.CREATE_VERSION_TABLE_QUERY (BEGIN db)).2.

(** *** Notions used to state the properties of [syncChats] *)

(** The rows of a table, none when the table does not exist. *)
Definition chat_rows (db : Db) : gmap string ChatRow := default ∅ (chats db).
Definition message_rows (db : Db) : gmap string MessageRow := default ∅ (messages db).

(** The three results of the [forEach] of [syncChats]. *)
Definition chatsToSync (userId : string) (dbChats chats : list Chat.t) : list Chat.t :=
  (DatabaseApi.reconcile userId dbChats chats).1.1.
Definition chatsToDelete (userId : string) (dbChats chats : list Chat.t) : list string :=
  (DatabaseApi.reconcile userId dbChats chats).1.2.
Definition diagnostics (userId : string) (dbChats chats : list Chat.t) : list console :=
  (DatabaseApi.reconcile userId dbChats chats).2.

(** A record carries a tombstone for the code when its [deletedAt] is
    truthy. *)
Definition tombstoned (chat : Chat.t) : bool := Js.truthy (Chat.deletedAt chat).

Definition owned (userId : string) (chat : Chat.t) : bool :=
  bool_decide (Chat.userId chat = userId).

(** The row the upsert writes for a client record. *)
Definition row_of (chat : Chat.t) : ChatRow :=
  {| c_user_id := Chat.userId chat; c_title := Chat.title chat;
     c_updated_at := Chat.updatedAt chat;
     c_deleted_at := Js.or_null (Chat.deletedAt chat) |}.

(** What the callback of [forEach] decides for one record, by the cases
    of its comment: whether the record is pushed on [chatsToSync], and
    whether its id is pushed on [chatsToDelete]. *)
Definition upserts (userId : string) (dbChatsMap : gmap string Chat.t)
    (chat : Chat.t) : bool :=
  owned userId chat &&
  match dbChatsMap !! Chat.chatId chat with
  | None => true
  | Some dbChat =>
      negb (tombstoned dbChat) &&
      (tombstoned chat || bool_decide (Chat.updatedAt dbChat < Chat.updatedAt chat))
  end.

Definition cascades (userId : string) (dbChatsMap : gmap string Chat.t)
    (chat : Chat.t) : bool :=
  owned userId chat && tombstoned chat &&
  match dbChatsMap !! Chat.chatId chat with
  | None => true
  | Some dbChat => negb (tombstoned dbChat)
  end.

Definition mismatch (userId : string) (chat : Chat.t) : console :=
  error_userId_mismatch (Chat.chatId chat) (Chat.userId chat) userId.

(** The row [addMessages] proposes for a message. *)
Definition message_row (message : Message.t) : MessageRow :=
  {| m_chat_id := Message.chatId message;
     m_content := Message.content message;
     m_image_url := Js.or_null_str (Message.imageUrl message);
     m_role := Message.role message;
     m_prompt := Js.or_null_str (Message.prompt message);
     m_created_at := Message.createdAt message |}.

(** *** Notions used to state the further properties *)

(** Referential integrity of [messages.chat_id REFERENCES chats(id)]. *)
Definition references_hold (db : Db) : Prop :=
  ∀ id row, message_rows db !! id = Some row →
    is_Some (chat_rows db !! m_chat_id row).

(** The order of [getChatsByUserId] on the chats it returns. *)
Definition newest_first (c1 c2 : Chat.t) : Prop :=
  Chat.updatedAt c2 ≤ Chat.updatedAt c1.

(** ** Concrete stores, batches and responses *)
Module Examples.

Definition chat (chatId userId title : string) (updatedAt : Z)
    (deletedAt : option Z) : Chat.t :=
  {| Chat.chatId := chatId; Chat.userId := userId; Chat.title := title;
     Chat.updatedAt := updatedAt; Chat.deletedAt := deletedAt |}.

Definition row (user_id title : string) (updated_at : Z) (deleted_at : option Z)
    : ChatRow :=
  {| c_user_id := user_id; c_title := title; c_updated_at := updated_at;
     c_deleted_at := deleted_at |}.

Definition store (chat_table : gmap string ChatRow)
    (message_table : gmap string MessageRow) : Db :=
  {| schema_versions := Some [1]; chats := Some chat_table;
     messages := Some message_table; user_tables := ∅ |}.

Definition world (db : Db) : DatabaseApi.World :=
  {| DatabaseApi.server := db;
     DatabaseApi.databaseClient := Some PostgresClient.constructor |}.

Definition hello : MessageRow :=
  {| m_chat_id := "c1"; m_content := "hello"; m_image_url := None;
     m_role := "user"; m_prompt := None; m_created_at := 510 |}.



(** Chat [c1] of user [u1], live on the server, and two client records
    for it: one newer that names another user, one newer of [u1]. *)
Definition live_world : DatabaseApi.World :=
  world (store {[ "c1" := row "u1" "mine" 50 None ]} {[ "m1" := hello ]}).
Definition mine : Chat.t := chat "c1" "u1" "mine" 50 None.
Definition foreign : Chat.t := chat "c1" "u2" "taken" 100 None.
Definition newer : Chat.t := chat "c1" "u1" "renamed" 100 None.
Definition deleted : Chat.t := chat "c1" "u1" "mine" 60 (Some 70).

(** Twenty-one chats of [u1], updated at times 1001 to 1021; the oldest,
    [c01], carries a tombstone. *)
Definition ids : list string :=
  ["c01"; "c02"; "c03"; "c04"; "c05"; "c06"; "c07"; "c08"; "c09"; "c10"; "c11";
   "c12"; "c13"; "c14"; "c15"; "c16"; "c17"; "c18"; "c19"; "c20"; "c21"].
Definition busy_table : gmap string ChatRow :=
  <["c01" := row "u1" "chat" 1001 (Some 2000)]>
    (list_to_map
       (zip_with (λ id n, (id, row "u1" "chat" (1001 + Z.of_nat n) None))
          ids (seq 0 21))).
Definition busy_world : DatabaseApi.World := world (store busy_table ∅).
Definition revival01 : Chat.t := chat "c01" "u1" "revived" 1000 None.

(** The body of the 401 response of E2E scenario 4,
    [{"error":{"message":"bad key"}}], as text and parsed. *)
Definition quoted (s : string) : string :=
  String (Ascii.ascii_of_nat 34) (s +:+ String (Ascii.ascii_of_nat 34) EmptyString).
Definition bad_key_text : string :=
  "{" +:+ quoted "error" +:+ ":{" +:+ quoted "message" +:+ ":"
      +:+ quoted "bad key" +:+ "}}".
Definition bad_key_json : Llm.Json :=
  Llm.JObject [("error", Llm.JObject [("message", Llm.JString "bad key")])].
Definition unauthorized : Llm.Response :=
  {| Llm.status := 401; Llm.json := Return bad_key_json;
     Llm.body := Some [bad_key_text] |}.

End Examples.

(** * Properties *)

(** ** The migration runner *)
Section migration_runner.
Import PostgresClient.
Implicit Types (m : gmap Z Migration) (tx : Db) (out : list console).

Lemma upgrade_loop_mono m n n' v tx out R :
  upgrade_loop n m v tx out = Some R → (n ≤ n')%nat →
  upgrade_loop n' m v tx out = Some R.
Proof.
  revert n' v tx out. induction n as [|n IH]; intros n' v tx out; [done|].
  destruct n' as [|n']; [lia|]. intros Hrun Hle. simpl in *.
  destruct (m !! v) as [p|]; [|done].
  destruct (p tx) as [[[]|e] tx1]; [|done].
  destruct (Queries.UPDATE_SCHEMA_VERSION_QUERY (v + 1) tx1) as [[[]|e] tx2]; [|done].
  apply IH; [done|lia].
Qed.

Lemma registered_from_shrinks m v p :
  m !! v = Some p →
  (size (registered_from m (v + 1)) < size (registered_from m v))%nat.
Proof.
  intros Hv. unfold registered_from. apply map_subset_size. split.
  - apply map_subseteq_spec. intros i x.
    rewrite !map_lookup_filter_Some. simpl. intros [? ?]. split; [done|lia].
  - intros Hsub. rewrite map_subseteq_spec in Hsub.
    specialize (Hsub v p). rewrite !map_lookup_filter_Some in Hsub. simpl in Hsub.
    destruct Hsub as [_ ?]; [split; [done|lia]|lia].
Qed.

Lemma upgrade_loop_enough_fuel m n v tx out :
  (size (registered_from m v) < n)%nat →
  is_Some (upgrade_loop n m v tx out).
Proof.
  revert v tx out. induction n as [|n IH]; intros v tx out Hn; [lia|].
  simpl. destruct (m !! v) as [p|] eqn:Hv; [|by eexists].
  destruct (p tx) as [[[]|e] tx1]; [|by eexists].
  destruct (Queries.UPDATE_SCHEMA_VERSION_QUERY (v + 1) tx1) as [[[]|e] tx2];
    [|by eexists].
  apply IH. pose proof (registered_from_shrinks m v p Hv). lia.
Qed.

(** The loop of [initializeDatabase] always leaves through its condition
    or through a throw: the fuel is never what stops it. *)
Lemma upgrade_loop_total m v tx out :
  is_Some (upgrade_loop (S (size m)) m v tx out).
Proof.
  apply upgrade_loop_enough_fuel.
  pose proof (map_subseteq_size (registered_from m v) m
                (map_filter_subseteq _ m)). lia.
Qed.

Lemma upgrade_loop_agree m n v tx out R :
  upgrade_loop n m v tx out = Some R →
  upgrade_loop (S (size m)) m v tx out = Some R.
Proof.
  intros Hn. destruct (upgrade_loop_total m v tx out) as [R' HR'].
  pose proof (upgrade_loop_mono _ _ (n + S (size m)) _ _ _ _ Hn ltac:(lia)) as H1.
  pose proof (upgrade_loop_mono _ _ (n + S (size m)) _ _ _ _ HR' ltac:(lia)) as H2.
  congruence.
Qed.

(** *** What [MAX] reads from the version table *)

Lemma fold_max_spec (rest : list Z) (a : Z) :
  let x := fold_left Z.max rest a in
  (x = a ∨ x ∈ rest) ∧ a ≤ x ∧ Forall (λ y, y ≤ x) rest.
Proof.
  revert a. induction rest as [|b rest IH]; intros a; simpl.
  - split; [by left|]. split; [lia|constructor].
  - destruct (IH (Z.max a b)) as (Hin & Hle & Hall). split; [|split].
    + destruct Hin as [Hin|Hin]; [|right; by right].
      destruct (Z.max_spec a b) as [[? Hm]|[? Hm]]; rewrite Hm in *.
      * right. rewrite Hin. by left.
      * by left.
    + lia.
    + constructor; [lia|done].
Qed.

Lemma MAX_spec (rows : list Z) (x : Z) :
  Queries.MAX rows = Some x → x ∈ rows ∧ Forall (λ y, y ≤ x) rows.
Proof.
  destruct rows as [|a rest]; [done|]. simpl. intros [= Hx].
  pose proof (fold_max_spec rest a) as Hspec. simpl in Hspec. rewrite Hx in Hspec.
  destruct Hspec as (Hin & Hle & Hall). split.
  - destruct Hin as [->|Hin]; [by left|by right].
  - constructor; [lia|done].
Qed.

Lemma MAX_bound (rows : list Z) :
  Forall (λ y, y ≤ Queries.COALESCE (Queries.MAX rows) 0) rows.
Proof.
  destruct (Queries.MAX rows) as [x|] eqn:Hmax.
  - by destruct (MAX_spec _ _ Hmax).
  - destruct rows; [constructor|done].
Qed.

Lemma elem_of_versions_from (x v : Z) (k : nat) :
  x ∈ versions_from v k ↔ v ≤ x < v + Z.of_nat k.
Proof.
  revert v. induction k as [|k IH]; intros v; simpl.
  - rewrite elem_of_nil. lia.
  - rewrite elem_of_cons, IH. lia.
Qed.

Lemma versions_from_snoc (v : Z) (k : nat) :
  versions_from v (S k) = versions_from v k ++ [v + Z.of_nat k].
Proof.
  revert v. induction k as [|k IH]; intros v.
  - simpl. f_equal. lia.
  - change (versions_from v (S (S k))) with (v :: versions_from (v + 1) (S k)).
    rewrite IH. simpl. do 3 f_equal. lia.
Qed.

Lemma length_versions_from (v : Z) (k : nat) : length (versions_from v k) = k.
Proof. revert v. induction k as [|k IH]; intros v; simpl; [done|by rewrite IH]. Qed.

Lemma MAX_after_walk (rows : list Z) (v : Z) (k : nat) :
  v = Queries.COALESCE (Queries.MAX rows) 0 →
  Queries.COALESCE (Queries.MAX (rows ++ versions_from (v + 1) k)) 0 = v + Z.of_nat k.
Proof.
  intros Hv. destruct k as [|k].
  - simpl. rewrite app_nil_r. lia.
  - pose proof (MAX_bound rows) as Hrows. rewrite <- Hv in Hrows.
    destruct (Queries.MAX (rows ++ versions_from (v + 1) (S k))) as [x|] eqn:Hmax.
    + destruct (MAX_spec _ _ Hmax) as [Hin Hall]. simpl.
      rewrite Forall_forall in Hall.
      assert (v + Z.of_nat (S k) ≤ x) as Hge.
      { apply Hall. apply elem_of_app. right. apply elem_of_versions_from. lia. }
      apply elem_of_app in Hin as [Hin|Hin].
      * rewrite Forall_forall in Hrows. specialize (Hrows _ Hin). lia.
      * apply elem_of_versions_from in Hin. lia.
    + destruct rows; done.
Qed.

(** *** The walk *)


Lemma applied_consecutive m v tx vs tx' :
  applied m v tx vs tx' → vs = versions_from v (length vs).
Proof.
  induction 1 as [|v tx p tx1 tx2 vs tx' _ _ _ _ IH]; simpl; [done|by f_equal].
Qed.

(** A walk that reaches a throwing procedure makes the loop throw, with
    the partial effects of that procedure in the transaction. *)
Lemma upgrade_loop_throw m v tx vs txk p e partial out :
  applied m v tx vs txk →
  m !! (v + Z.of_nat (length vs)) = Some p →
  p txk = (Throw e, partial) →
  upgrade_loop (S (length vs)) m v tx out =
    Some (Throw e, partial,
          out ++ upgrading (vs ++ [v + Z.of_nat (length vs)])).
Proof.
  intros Hwalk. revert out.
  induction Hwalk as [v tx|v tx q tx1 tx2 vs tx' Hq Hrun Hins _ IH];
    intros out Hp Hthrow.
  - simpl in *. rewrite Z.add_0_r in *. by rewrite Hp, Hthrow.
  - change (upgrade_loop (S (length (v :: vs))) m v tx out)
      with (match m !! v with
            | None => Some (Return v, tx, out)
            | Some migration =>
                match migration tx with
                | (Throw e, tx) => Some (Throw e, tx, out ++ [log_upgrading v (v + 1)])
                | (Return _, tx) =>
                    match Queries.UPDATE_SCHEMA_VERSION_QUERY (v + 1) tx with
                    | (Throw e, tx) => Some (Throw e, tx, out ++ [log_upgrading v (v + 1)])
                    | (Return _, tx) =>
                        upgrade_loop (S (length vs)) m (v + 1) tx
                          (out ++ [log_upgrading v (v + 1)])
                    end
                end
            end).
    rewrite Hq, Hrun, Hins.
    rewrite IH; [|by rewrite <- Hp; f_equal; simpl length; lia|done].
    do 2 f_equal. unfold upgrading. rewrite <- app_assoc. simpl.
    replace (v + Z.of_nat (S (length vs))) with (v + 1 + Z.of_nat (length vs)) by lia.
    done.
Qed.

(** What the loop does when the procedures keep to their contract. *)
Lemma upgrade_loop_spec m n v tx out rows R :
  keeps_version_table m →
  upgrade_loop n m v tx out = Some R →
  schema_versions tx = Some rows →
  Forall (λ x, x ≤ v) rows →
  match R with
  | (Return v', tx', out') =>
      ∃ k : nat,
        v' = v + Z.of_nat k ∧ m !! (v + Z.of_nat k) = None ∧
        applied m v tx (versions_from v k) tx' ∧
        schema_versions tx' = Some (rows ++ versions_from (v + 1) k) ∧
        out' = out ++ upgrading (versions_from v k)
  | (Throw e, tx', out') =>
      ∃ (k : nat) txk p,
        applied m v tx (versions_from v k) txk ∧
        m !! (v + Z.of_nat k) = Some p ∧ p txk = (Throw e, tx') ∧
        out' = out ++ upgrading (versions_from v (S k))
  end.
Proof.
  intros Hm. revert v tx out rows.
  induction n as [|n IH]; intros v tx out rows Hrun Hrows Hle; [done|].
  simpl in Hrun. destruct (m !! v) as [p|] eqn:Hp.
  - destruct (p tx) as [[[]|e] tx1] eqn:Hptx.
    + pose proof (Hm _ _ _ _ Hp Hptx) as Hframe. rewrite Hrows in Hframe.
      assert (Queries.UPDATE_SCHEMA_VERSION_QUERY (v + 1) tx1 =
              (Return tt, set_schema_versions (Some (rows ++ [v + 1])) tx1)) as Hins.
      { unfold Queries.UPDATE_SCHEMA_VERSION_QUERY. rewrite Hframe.
        rewrite bool_decide_eq_false_2; [done|].
        intros Hin. rewrite Forall_forall in Hle. specialize (Hle _ Hin). lia. }
      rewrite Hins in Hrun.
      specialize (IH (v + 1) _ _ (rows ++ [v + 1]) Hrun eq_refl).
      destruct R as [[[v'|e] tx'] out'].
      * destruct IH as (k & -> & Hnone & Hwalk & Hvers & ->).
        { apply Forall_app. split; [|by repeat constructor].
          eapply Forall_impl; [exact Hle|]. simpl. lia. }
        exists (S k). split; [lia|]. split; [by rewrite <- Hnone; f_equal; lia|].
        split; [by eapply applied_cons|]. split.
        -- rewrite Hvers, <- app_assoc. done.
        -- rewrite <- app_assoc. done.
      * destruct IH as (k & txk & q & Hwalk & Hq & Hthrow & ->).
        { apply Forall_app. split; [|by repeat constructor].
          eapply Forall_impl; [exact Hle|]. simpl. lia. }
        exists (S k), txk, q. split; [by eapply applied_cons|].
        split; [by rewrite <- Hq; f_equal; lia|]. split; [done|].
        rewrite <- app_assoc. done.
    + injection Hrun as <-. exists O, tx, p. rewrite Z.add_0_r.
      repeat split; [constructor|done|done].
  - injection Hrun as <-. exists O. rewrite Z.add_0_r. simpl.
    repeat split; [done|constructor|by rewrite app_nil_r|by rewrite app_nil_r].
Qed.

Lemma ensured_version_table db :
  ∃ rows,
    Queries.CREATE_VERSION_TABLE_QUERY db =
      (Return tt, (Queries.CREATE_VERSION_TABLE_QUERY db).2) ∧
    schema_versions (Queries.CREATE_VERSION_TABLE_QUERY db).2 = Some rows ∧
    recorded_version db = Queries.COALESCE (Queries.MAX rows) 0.
Proof.
  unfold Queries.CREATE_VERSION_TABLE_QUERY, recorded_version.
  destruct (schema_versions db) as [rows|] eqn:Hv; simpl.
  - by exists rows.
  - by exists [].
Qed.

Lemma initializeDatabase_try_unfold this db :
  initializeDatabase_try this (BEGIN db) =
    upgrade_loop (S (size (migrations this))) (migrations this)
      (recorded_version db) (walk_start db) [].
Proof.
  unfold initializeDatabase_try, walk_start.
  destruct (ensured_version_table (BEGIN db)) as (rows & Heq & Hrows & Hv).
  destruct (Queries.CREATE_VERSION_TABLE_QUERY (BEGIN db)) as [r tx0].
  simpl in Heq, Hrows. injection Heq as ->. simpl.
  unfold Queries.GET_SCHEMA_VERSION_QUERY. rewrite Hrows. unfold BEGIN in Hv.
  by rewrite Hv.
Qed.

(** C1. If, after any number of upgrade procedures that ran to
    completion in this call, the next registered procedure throws (with
    whatever partial effects), [initializeDatabase] rolls the whole
    transaction back: the store is exactly the store before the call,
    so the recorded version and every table are unchanged, and the
    call throws the same exception to its caller after logging it. *)
Theorem initializeDatabase_rolls_back
    (this : PostgresClient.t) (db : Db) (vs : list Z) (txk partial : Db)
    (p : Migration) (e : exn) :
  applied (migrations this) (recorded_version db) (walk_start db) vs txk →
  migrations this !! (recorded_version db + Z.of_nat (length vs)) = Some p →
  p txk = (Throw e, partial) →
  initializeDatabase this db =
    Some (Throw e, db,
          upgrading (vs ++ [recorded_version db + Z.of_nat (length vs)])
            ++ [error_initialization_failed e]).
Proof.
  intros Hwalk Hp Hthrow. unfold initializeDatabase.
  rewrite initializeDatabase_try_unfold.
  rewrite (upgrade_loop_agree _ _ _ _ _ _
             (upgrade_loop_throw _ _ _ _ _ _ _ _ [] Hwalk Hp Hthrow)).
  done.
Qed.


Lemma and_then_keeps (s1 s2 : Statement unit) :
  (∀ tx tx', s1 tx = (Return tt, tx') → schema_versions tx' = schema_versions tx) →
  (∀ tx tx', s2 tx = (Return tt, tx') → schema_versions tx' = schema_versions tx) →
  ∀ tx tx', (s1 ;; s2) tx = (Return tt, tx') →
    schema_versions tx' = schema_versions tx.
Proof.
  intros H1 H2 tx tx'. unfold and_then.
  destruct (s1 tx) as [[[]|e] tx1] eqn:Hs1; [|done].
  intros Hs2. rewrite (H2 _ _ Hs2). by apply H1.
Qed.

Lemma default_migration_keeps tx tx' :
  default_migration tx = (Return tt, tx') →
  schema_versions tx' = schema_versions tx.
Proof.
  revert tx tx'. unfold default_migration.
  repeat apply and_then_keeps; intros tx tx';
    unfold createChatsTable, createMessagesTable,
      Queries.CREATE_CHATS_TABLE_QUERY, Queries.CREATE_MESSAGES_TABLE_QUERY,
      Queries.INDEX_CHATS, Queries.INDEX_MESSAGES;
    repeat case_match; naive_solver.
Qed.

Lemma readme_client_keeps_version_table :
  keeps_version_table (migrations readme_client).
Proof.
  intros v p tx tx'. unfold readme_client, registerMigration, constructor. simpl.
  rewrite !lookup_insert_Some, lookup_empty.
  intros [[_ <-]|[_ [[_ <-]|[_ [[_ <-]|[_ ?]]]]]]; [| | |done].
  - unfold Ddl.add_username, Ddl.ALTER_TABLE_ADD_COLUMN.
    repeat case_match; naive_solver.
  - unfold Ddl.create_users, Ddl.CREATE_TABLE_IF_NOT_EXISTS.
    repeat case_match; naive_solver.
  - apply default_migration_keeps.
Qed.

Lemma initializeDatabase_rolls_back_witness :
  initializeDatabase failing_client fresh_store =
    Some (Throw (undefined_table "users"), fresh_store,
          [log_upgrading 0 1; log_upgrading 1 2;
           error_initialization_failed (undefined_table "users")]).
Proof.
  apply (initializeDatabase_rolls_back failing_client fresh_store [0]
           {| schema_versions := Some [1]; chats := Some ∅;
              messages := Some ∅; user_tables := ∅ |}
           {| schema_versions := Some [1]; chats := Some ∅;
              messages := Some ∅; user_tables := ∅ |}
           Ddl.add_username (undefined_table "users")).
  - eapply (applied_cons _ _ _ default_migration);
      [reflexivity|reflexivity|reflexivity|apply applied_nil].
  - reflexivity.
  - reflexivity.
Defined.


(** E2E scenario 1: on a fresh store, [initializeDatabase] of the API
    with no further procedure applies the default one and records
    version 1; the tables exist afterwards and the client is set. *)
Example initializeDatabase_fresh_store :
  ∃ w,
    DatabaseApi.initializeDatabase None
      {| DatabaseApi.server := fresh_store; DatabaseApi.databaseClient := None |}
    = Some (Return tt, w, [log_upgrading 0 1; log_schema_version 1]) ∧
    recorded_version (DatabaseApi.server w) = 1 ∧
    chats (DatabaseApi.server w) = Some ∅ ∧
    messages (DatabaseApi.server w) = Some ∅ ∧
    DatabaseApi.isDatabaseClientSet w = true.
Proof. eexists. repeat split. Qed.

(** P1: a second run applies nothing. *)
Example initializeDatabase_second_run :
  ∃ db,
    initializeDatabase readme_client fresh_store
      = Some (Return tt, db,
              upgrading [0; 1; 2] ++ [log_schema_version 3]) ∧
    initializeDatabase readme_client db
      = Some (Return tt, db, [log_schema_version 3]).
Proof. eexists. split; vm_compute; reflexivity. Qed.

End migration_runner.

(** ** The chat reconciler *)
Section reconciler.
Import DatabaseApi Examples.
Implicit Types (chat c d : Chat.t) (chats dbChats : list Chat.t).

Lemma reconcile_step_spec userId (map : gmap string Chat.t) acc chat :
  reconcile_step userId map acc chat =
    (acc.1.1 ++ (if upserts userId map chat then [chat] else []),
     acc.1.2 ++ (if cascades userId map chat then [Chat.chatId chat] else []),
     acc.2 ++ (if owned userId chat then [] else [mismatch userId chat])).
Proof.
  destruct acc as [[sync del] out].
  unfold reconcile_step, upserts, cascades, owned, tombstoned, mismatch. simpl.
  destruct (decide (Chat.userId chat = userId)) as [Heq|Hne].
  - rewrite (bool_decide_eq_false_2 (Chat.userId chat ≠ userId)) by tauto.
    rewrite (bool_decide_eq_true_2 _ Heq). simpl.
    destruct (map !! Chat.chatId chat) as [dbChat|].
    + destruct (Js.truthy (Chat.deletedAt dbChat)); simpl.
      { by rewrite andb_false_r, !app_nil_r. }
      destruct (Js.truthy (Chat.deletedAt chat)); simpl.
      { by rewrite app_nil_r. }
      destruct (decide (Chat.updatedAt chat > Chat.updatedAt dbChat)) as [Hgt|Hle].
      * rewrite (bool_decide_eq_true_2 _ Hgt).
        rewrite (bool_decide_eq_true_2 (Chat.updatedAt dbChat < Chat.updatedAt chat))
          by lia.
        by rewrite !app_nil_r.
      * rewrite (bool_decide_eq_false_2 _ Hle).
        rewrite (bool_decide_eq_false_2 (Chat.updatedAt dbChat < Chat.updatedAt chat))
          by lia.
        by rewrite !app_nil_r.
    + destruct (Js.truthy (Chat.deletedAt chat)); simpl; by rewrite ?app_nil_r.
  - rewrite (bool_decide_eq_true_2 (Chat.userId chat ≠ userId)) by done.
    rewrite (bool_decide_eq_false_2 _ Hne). simpl. by rewrite !app_nil_r.
Qed.

Lemma reconcile_fold userId (map : gmap string Chat.t) chats acc :
  fold_left (reconcile_step userId map) chats acc =
    (acc.1.1 ++ List.filter (upserts userId map) chats,
     acc.1.2 ++ (Chat.chatId <$> List.filter (cascades userId map) chats),
     acc.2 ++ (mismatch userId <$> List.filter (λ c, negb (owned userId c)) chats)).
Proof.
  revert acc. induction chats as [|chat chats IH]; intros acc.
  - simpl. rewrite !app_nil_r. by destruct acc as [[??]?].
  - simpl fold_left. rewrite IH, reconcile_step_spec. simpl.
    destruct (upserts userId map chat), (cascades userId map chat),
      (owned userId chat); simpl; by rewrite <- ?app_assoc.
Qed.

(** The loop of [syncChats] computes three filters of the batch. *)
Lemma reconcile_spec userId dbChats chats :
  reconcile userId dbChats chats =
    (List.filter (upserts userId (Map_of dbChats)) chats,
     Chat.chatId <$> List.filter (cascades userId (Map_of dbChats)) chats,
     mismatch userId <$> List.filter (λ c, negb (owned userId c)) chats).
Proof. unfold reconcile. by rewrite reconcile_fold. Qed.

Lemma elem_of_chatsToSync userId dbChats chats c :
  c ∈ chatsToSync userId dbChats chats ↔
  c ∈ chats ∧ upserts userId (Map_of dbChats) c = true.
Proof.
  unfold chatsToSync. rewrite reconcile_spec. simpl.
  rewrite !list_elem_of_In, filter_In. done.
Qed.

Lemma elem_of_chatsToDelete userId dbChats chats id :
  id ∈ chatsToDelete userId dbChats chats ↔
  ∃ c, c ∈ chats ∧ Chat.chatId c = id ∧ cascades userId (Map_of dbChats) c = true.
Proof.
  unfold chatsToDelete. rewrite reconcile_spec. simpl.
  rewrite list_elem_of_fmap. split.
  - intros (c & -> & Hc). apply list_elem_of_In, filter_In in Hc as [Hc ?].
    exists c. by rewrite list_elem_of_In.
  - intros (c & Hc & <- & ?). exists c. split; [done|].
    apply list_elem_of_In, filter_In. by rewrite <- list_elem_of_In.
Qed.

(** *** The snapshot and the map built from it *)

Lemma Map_of_fold dbChats (map : gmap string Chat.t) id d :
  fold_left (λ map chat, <[Chat.chatId chat := chat]> map) dbChats map !! id = Some d →
  (d ∈ dbChats ∧ Chat.chatId d = id) ∨ map !! id = Some d.
Proof.
  revert map. induction dbChats as [|c dbChats IH]; intros map Hd; simpl in Hd.
  - by right.
  - destruct (IH _ Hd) as [[Hin Hid]|Hmap].
    + left. split; [by right|done].
    + apply lookup_insert_Some in Hmap as [[<- <-]|[_ Hmap]].
      * left. split; [by left|done].
      * by right.
Qed.

Lemma Map_of_lookup dbChats id d :
  Map_of dbChats !! id = Some d → d ∈ dbChats ∧ Chat.chatId d = id.
Proof.
  intros Hd. destruct (Map_of_fold _ _ _ _ Hd) as [?|Hempty]; [done|].
  by rewrite lookup_empty in Hempty.
Qed.

(** Every chat of the snapshot is a row of the user in the table, with
    the row's time stamps. *)
Lemma getChatsByUserId_sound userId updatedAfter limit page db dbChats d :
  PostgresClient.getChatsByUserId userId updatedAfter limit page db = Return dbChats →
  d ∈ dbChats →
  ∃ row, chat_rows db !! Chat.chatId d = Some row ∧
         Chat.userId d = userId ∧ c_user_id row = userId ∧
         Chat.updatedAt d = c_updated_at row ∧
         Chat.deletedAt d = c_deleted_at row.
Proof.
  unfold PostgresClient.getChatsByUserId, PostgresClient.query,
    Queries.GET_CHATS_BY_USER_ID_QUERY, chat_rows.
  destruct (chats db) as [table|]; [|done]. simpl.
  repeat case_bool_decide; try done. intros [= <-] Hd.
  apply list_elem_of_fmap in Hd as ([id row] & -> & Hin). simpl.
  apply (subseteq_take _ _), (subseteq_drop _ _) in Hin.
  rewrite merge_sort_Permutation in Hin.
  apply list_elem_of_In, filter_In in Hin as [Hin Hsel]. simpl in Hsel.
  apply list_elem_of_In, elem_of_map_to_list in Hin.
  apply andb_true_iff in Hsel as [Huser _]. apply bool_decide_eq_true in Huser.
  by exists row.
Qed.

(** *** The bulk upsert *)

Lemma UNNEST5_chats (sync : list Chat.t) :
  Queries.UNNEST5 (Chat.chatId <$> sync) (Chat.userId <$> sync) (Chat.title <$> sync)
    (Chat.updatedAt <$> sync) ((λ chat, Js.or_null (Chat.deletedAt chat)) <$> sync)
  = (λ chat, (Chat.chatId chat, row_of chat)) <$> sync.
Proof.
  induction sync as [|c sync IH]; [done|].
  rewrite !fmap_cons. cbn [Queries.UNNEST5]. by rewrite IH.
Qed.

Lemma upsert_lookup_other (rows : list (string * ChatRow)) table id :
  id ∉ rows.*1 → fold_left Queries.upsert_row rows table !! id = table !! id.
Proof.
  revert table. induction rows as [|[k r] rows IH]; intros table Hid; simpl; [done|].
  rewrite fmap_cons in Hid. apply not_elem_of_cons in Hid as [Hne Hid].
  rewrite IH by done. unfold Queries.upsert_row. simpl. by rewrite lookup_insert_ne.
Qed.

Lemma upsert_lookup_written (rows : list (string * ChatRow)) table id row :
  NoDup rows.*1 → (id, row) ∈ rows →
  fold_left Queries.upsert_row rows table !! id = Some row.
Proof.
  revert table. induction rows as [|[k r] rows IH]; intros table Hnodup Hin.
  - by apply elem_of_nil in Hin.
  - rewrite fmap_cons in Hnodup. apply NoDup_cons in Hnodup as [Hk Hnodup].
    apply elem_of_cons in Hin as [[= <- <-]|Hin]; simpl.
    + rewrite upsert_lookup_other by done. unfold Queries.upsert_row. simpl.
      by rewrite lookup_insert_eq.
    + by apply IH.
Qed.

Lemma upsert_lookup_cases (rows : list (string * ChatRow)) table id :
  fold_left Queries.upsert_row rows table !! id = table !! id ∨
  ∃ row, (id, row) ∈ rows ∧ fold_left Queries.upsert_row rows table !! id = Some row.
Proof.
  revert table. induction rows as [|[k r] rows IH]; intros table; simpl; [by left|].
  destruct (IH (Queries.upsert_row table (k, r))) as [Heq|(row & Hin & Hrow)].
  - rewrite Heq. unfold Queries.upsert_row. simpl.
    destruct (decide (k = id)) as [->|Hne].
    + right. exists r. split; [by left|]. by rewrite lookup_insert_eq.
    + left. by rewrite lookup_insert_ne.
  - right. exists row. split; [by right|done].
Qed.

Lemma upsert_keeps_rows (rows : list (string * ChatRow)) table id :
  is_Some (table !! id) → is_Some (fold_left Queries.upsert_row rows table !! id).
Proof.
  intros Hsome. destruct (upsert_lookup_cases rows table id) as [->|(row & _ & ->)];
    [done|by eexists].
Qed.

(** *** [PostgresClient.syncChats] *)

(** The call either leaves the store as it was (nothing to do, or a
    failure and its rollback), or commits the upsert of every record of
    [chatsToSync] together with the deletion of the messages of the
    chats of [chatsToDelete]. *)
Lemma syncChats_outcome (sync : list Chat.t) (del : list string) (db : Db) :
  ∃ r db' out,
    PostgresClient.syncChats sync del db = (r, db', out) ∧
    (db' = db ∨
     (r = Return tt ∧
      NoDup (Chat.chatId <$> sync) ∧
      schema_versions db' = schema_versions db ∧
      user_tables db' = user_tables db ∧
      chat_rows db' =
        fold_left Queries.upsert_row
          ((λ chat, (Chat.chatId chat, row_of chat)) <$> sync) (chat_rows db) ∧
      message_rows db' = filter (λ kv, m_chat_id kv.2 ∉ del) (message_rows db))).
Proof.
  unfold PostgresClient.syncChats.
  destruct (bool_decide (length sync = 0%nat) && bool_decide (length del = 0%nat))
    eqn:Hempty; [eexists _, _, _; split; [done|by left]|].
  unfold PostgresClient.syncChats_try, and_then, BEGIN, COMMIT, ROLLBACK.
  set (upsert := if bool_decide (0 < length sync)%nat then _ else _).
  assert (upsert db = (Return tt, db) ∧ sync = [] ∨
          (∃ e, upsert db = (Throw e, db)) ∨
          (∃ table, chats db = Some table ∧ NoDup (Chat.chatId <$> sync) ∧
             upsert db =
               (Return tt,
                set_chats (Some (fold_left Queries.upsert_row
                   ((λ chat, (Chat.chatId chat, row_of chat)) <$> sync) table)) db)))
    as Hupsert.
  { subst upsert. destruct (decide (0 < length sync)%nat) as [Hlen|Hlen].
    - rewrite (bool_decide_eq_true_2 _ Hlen).
      right. unfold Queries.UPSERT_CHATS_QUERY. rewrite UNNEST5_chats.
      destruct (chats db) as [table|]; [|left; by eexists].
      rewrite <- list_fmap_compose.
      change (fst ∘ _) with Chat.chatId.
      destruct (decide (NoDup (Chat.chatId <$> sync))) as [Hnodup|Hdup].
      + rewrite (bool_decide_eq_true_2 _ Hnodup). right. by exists table.
      + rewrite (bool_decide_eq_false_2 _ Hdup). left. by eexists.
    - rewrite (bool_decide_eq_false_2 _ Hlen).
      left. split; [done|]. destruct sync; [done|simpl in Hlen; lia]. }
  destruct Hupsert as [[-> ->]|[[e ->]|(table & Htable & Hnodup & ->)]].
  - (* nothing to upsert *)
    destruct (decide (0 < length del)%nat) as [Hlen|Hlen].
    + rewrite (bool_decide_eq_true_2 _ Hlen).
      unfold Queries.DELETE_MESSAGES_BY_CHAT_IDS.
      destruct (messages db) as [mtable|] eqn:Hm;
        eexists _, _, _; (split; [done|]); [right|by left].
      split; [done|]. split; [constructor|]. repeat split.
      unfold message_rows. simpl. by rewrite Hm.
    + destruct del; [|simpl in Hlen; lia]. done.
  - eexists _, _, _. split; [done|by left].
  - (* the upsert went through *)
    assert (chat_rows (set_chats (Some (fold_left Queries.upsert_row
              ((λ chat, (Chat.chatId chat, row_of chat)) <$> sync) table)) db) =
            fold_left Queries.upsert_row
              ((λ chat, (Chat.chatId chat, row_of chat)) <$> sync) (chat_rows db))
      as Hrows by (unfold chat_rows; simpl; by rewrite Htable).
    destruct (decide (0 < length del)%nat) as [Hlen|Hlen].
    + rewrite (bool_decide_eq_true_2 _ Hlen).
      unfold Queries.DELETE_MESSAGES_BY_CHAT_IDS. simpl.
      destruct (messages db) as [mtable|] eqn:Hm;
        eexists _, _, _; (split; [done|]); [right|by left].
      repeat split; [done|done|]. unfold message_rows. simpl. by rewrite Hm.
    + rewrite (bool_decide_eq_false_2 _ Hlen).
      eexists _, _, _. split; [done|]. right. repeat split; [done|done|].
      destruct del; [|simpl in Hlen; lia]. unfold message_rows. simpl.
      symmetry. apply map_filter_id. intros ? ? _. simpl. apply not_elem_of_nil.
Qed.

(** What [DatabaseApi.syncChats] does once the client is set, the batch
    is not empty and the snapshot was fetched. *)
Lemma syncChats_unfold userId chats updatedAt w dbChats :
  isDatabaseClientSet w = true →
  chats ≠ [] →
  PostgresClient.getChatsByUserId userId updatedAt None None (server w)
    = Return dbChats →
  DatabaseApi.syncChats userId chats updatedAt w =
    let applied :=
      PostgresClient.syncChats (chatsToSync userId dbChats chats)
        (chatsToDelete userId dbChats chats) (server w) in
    (applied.1.1, set_server applied.1.2 w,
     diagnostics userId dbChats chats ++ applied.2).
Proof.
  intros Hset Hne Hfetch. unfold DatabaseApi.syncChats.
  rewrite Hset, Hfetch. simpl.
  rewrite bool_decide_eq_false_2 by (by destruct chats).
  unfold chatsToSync, chatsToDelete, diagnostics.
  destruct (reconcile userId dbChats chats) as [[sync del] out]. simpl.
  by destruct (PostgresClient.syncChats sync del (server w)) as [[r db'] out'].
Qed.

(** Whatever the call does, its store afterwards is the store before or
    the store [PostgresClient.syncChats] leaves for the two lists
    computed from some fetched snapshot. *)
Lemma syncChats_server userId chats updatedAt w :
  server (DatabaseApi.syncChats userId chats updatedAt w).1.2 = server w ∨
  ∃ dbChats,
    PostgresClient.getChatsByUserId userId updatedAt None None (server w)
      = Return dbChats ∧
    server (DatabaseApi.syncChats userId chats updatedAt w).1.2 =
      (PostgresClient.syncChats (chatsToSync userId dbChats chats)
         (chatsToDelete userId dbChats chats) (server w)).1.2.
Proof.
  destruct (isDatabaseClientSet w) eqn:Hset;
    [|left; unfold DatabaseApi.syncChats; by rewrite Hset].
  destruct chats as [|c chats];
    [left; unfold DatabaseApi.syncChats; by rewrite Hset|].
  destruct (PostgresClient.getChatsByUserId userId updatedAt None None (server w))
    as [dbChats|e] eqn:Hfetch;
    [|left; unfold DatabaseApi.syncChats; by rewrite Hset, Hfetch].
  right. exists dbChats. split; [done|].
  by rewrite (syncChats_unfold _ _ _ _ dbChats).
Qed.

(** C10. [PostgresClient.syncChats] never removes a row of [chats]: a row
    that exists before the call exists after it, and a row differs
    after the call only if it is the row written for a record of
    [chatsToSync].  No message is added or changed, and a message
    disappears only if its [chat_id] is in [chatsToDelete].  The same
    holds for the rows of [chats] through [DatabaseApi.syncChats]. *)
Theorem syncChats_never_removes_chats
    (sync : list Chat.t) (del : list string) (db : Db)
    (userId : string) (chats : list Chat.t) (updatedAt : option Z) (w : World) :
  let after := (PostgresClient.syncChats sync del db).1.2 in
  (∀ id, is_Some (chat_rows db !! id) → is_Some (chat_rows after !! id)) ∧
  (∀ id, chat_rows after !! id ≠ chat_rows db !! id →
     ∃ chat, chat ∈ sync ∧ Chat.chatId chat = id ∧
             chat_rows after !! id = Some (row_of chat)) ∧
  (∀ id row, message_rows after !! id = Some row →
     message_rows db !! id = Some row) ∧
  (∀ id row, message_rows db !! id = Some row →
     message_rows after !! id = None → m_chat_id row ∈ del) ∧
  (∀ id, is_Some (chat_rows (server w) !! id) →
     is_Some (chat_rows
                (server (DatabaseApi.syncChats userId chats updatedAt w).1.2) !! id)).
Proof.
  assert (∀ sync del db,
    let after := (PostgresClient.syncChats sync del db).1.2 in
    (∀ id, is_Some (chat_rows db !! id) → is_Some (chat_rows after !! id)) ∧
    (∀ id, chat_rows after !! id ≠ chat_rows db !! id →
       ∃ chat, chat ∈ sync ∧ Chat.chatId chat = id ∧
               chat_rows after !! id = Some (row_of chat)) ∧
    (∀ id row, message_rows after !! id = Some row →
       message_rows db !! id = Some row) ∧
    (∀ id row, message_rows db !! id = Some row →
       message_rows after !! id = None → m_chat_id row ∈ del)) as Hclient.
  { clear. intros sync del db after. subst after.
    destruct (syncChats_outcome sync del db)
      as (r & db' & out & -> & [->|(_ & _ & _ & _ & Hchats & Hmsgs)]); simpl.
    - repeat split; [done|done|done|congruence].
    - rewrite Hchats, Hmsgs. repeat split.
      + intros id. apply upsert_keeps_rows.
      + intros id Hdiff.
        destruct (upsert_lookup_cases
                    ((λ chat, (Chat.chatId chat, row_of chat)) <$> sync)
                    (chat_rows db) id) as [Heq|(row & Hin & Hrow)]; [done|].
        apply list_elem_of_fmap in Hin as (chat & [= -> ->] & Hin).
        by exists chat.
      + intros id row Hrow. by apply map_lookup_filter_Some in Hrow as [? _].
      + intros id row Hrow Hgone.
        destruct (decide (m_chat_id row ∈ del)) as [|Hnot]; [done|].
        assert (filter (λ kv, m_chat_id kv.2 ∉ del) (message_rows db) !! id
                = Some row) as Hkept by (by apply map_lookup_filter_Some).
        congruence. }
  intros after. destruct (Hclient sync del db) as (H1 & H2 & H3 & H4).
  repeat split; [done|done|done|done|].
  intros id Hid.
  destruct (syncChats_server userId chats updatedAt w) as [->|(dbChats & _ & ->)];
    [done|].
  by apply Hclient.
Qed.

Lemma cascades_upserts userId (map : gmap string Chat.t) c :
  cascades userId map c = true → upserts userId map c = true.
Proof.
  unfold cascades, upserts.
  destruct (owned userId c), (tombstoned c); simpl; try done.
  destruct (map !! Chat.chatId c) as [dbChat|]; [|done].
  destruct (tombstoned dbChat); done.
Qed.

Lemma cascades_tombstoned userId (map : gmap string Chat.t) c :
  cascades userId map c = true → tombstoned c = true.
Proof.
  unfold cascades. destruct (owned userId c), (tombstoned c); simpl; done.
Qed.

Lemma upsert_writes_record (sync : list Chat.t) table c :
  NoDup (Chat.chatId <$> sync) → c ∈ sync →
  fold_left Queries.upsert_row
    ((λ chat, (Chat.chatId chat, row_of chat)) <$> sync) table !! Chat.chatId c
  = Some (row_of c).
Proof.
  intros Hnodup Hc. apply upsert_lookup_written.
  - by rewrite <- list_fmap_compose.
  - by apply (list_elem_of_fmap_2 (λ chat, (Chat.chatId chat, row_of chat))).
Qed.


(** C9. Every id that the loop of [syncChats] puts on [chatsToDelete]
    is the id of a record, carrying a tombstone, that the same loop
    puts on [chatsToSync].  And through the whole call: when a message
    of the store is gone after [syncChats], a record of the batch with
    the message's [chat_id] carries a tombstone and the row of that chat
    after the call is the row upserted for it, written by the
    transaction that deleted the message. *)
Theorem cascade_comes_with_upsert
    (userId : string) (dbChats chats : list Chat.t) (updatedAt : option Z)
    (w : World) :
  (∀ id, id ∈ chatsToDelete userId dbChats chats →
     ∃ chat, chat ∈ chatsToSync userId dbChats chats ∧
             Chat.chatId chat = id ∧ tombstoned chat = true) ∧
  let after := server (DatabaseApi.syncChats userId chats updatedAt w).1.2 in
  (∀ id row, message_rows (server w) !! id = Some row →
     message_rows after !! id = None →
     ∃ chat, chat ∈ chats ∧ Chat.chatId chat = m_chat_id row ∧
             tombstoned chat = true ∧
             chat_rows after !! m_chat_id row = Some (row_of chat)).
Proof.
  split.
  - intros id Hid. apply elem_of_chatsToDelete in Hid as (c & Hc & <- & Hcas).
    exists c. split; [|split; [done|by eapply cascades_tombstoned]].
    apply elem_of_chatsToSync. split; [done|by apply cascades_upserts].
  - intros after id row Hrow Hgone. subst after.
    destruct (syncChats_server userId chats updatedAt w)
      as [Hsame|(snapshot & _ & Hafter)]; rewrite ?Hsame, ?Hafter in *;
      [congruence|].
    destruct (syncChats_outcome (chatsToSync userId snapshot chats)
                (chatsToDelete userId snapshot chats) (server w))
      as (r & db' & out & Hrun & [->|(_ & Hnodup & _ & _ & Hchats & Hmsgs)]);
      rewrite Hrun in *; simpl in *; [congruence|].
    assert (m_chat_id row ∈ chatsToDelete userId snapshot chats) as Hdel.
    { destruct (decide (m_chat_id row ∈ chatsToDelete userId snapshot chats))
        as [|Hnot]; [done|].
      assert (message_rows db' !! id = Some row) as Hkept
        by (rewrite Hmsgs; by apply map_lookup_filter_Some).
      congruence. }
    apply elem_of_chatsToDelete in Hdel as (c & Hc & Hid & Hcas).
    exists c. split; [done|]. split; [done|].
    split; [by eapply cascades_tombstoned|].
    rewrite Hchats, <- Hid. apply upsert_writes_record; [done|].
    apply elem_of_chatsToSync. split; [done|by apply cascades_upserts].
Qed.

Lemma filter_owned_upserts userId (map : gmap string Chat.t) chats :
  List.filter (upserts userId map) (List.filter (owned userId) chats) =
  List.filter (upserts userId map) chats.
Proof.
  induction chats as [|c chats IH]; [done|]. simpl.
  unfold upserts at 2. destruct (owned userId c) eqn:Hown; simpl.
  - unfold upserts at 1. rewrite Hown. simpl. by rewrite IH.
  - done.
Qed.

Lemma filter_owned_cascades userId (map : gmap string Chat.t) chats :
  List.filter (cascades userId map) (List.filter (owned userId) chats) =
  List.filter (cascades userId map) chats.
Proof.
  induction chats as [|c chats IH]; [done|]. simpl.
  unfold cascades at 2. destruct (owned userId c) eqn:Hown; simpl.
  - unfold cascades at 1. rewrite Hown. simpl. by rewrite IH.
  - done.
Qed.

(** C8. In a call of [syncChats] that reaches its loop, a record whose
    [userId] is not the target [userId] is never put on [chatsToSync];
    the two lists are those of the batch without the foreign records,
    so nothing enters [chatsToDelete] on its account either; the
    mismatch is printed with [console.error]; and the result and the
    store of the call are those of applying the lists of the remaining
    records: the call neither throws for the mismatch nor stops. *)
Theorem syncChats_rejects_foreign_records
    (userId : string) (chats : list Chat.t) (updatedAt : option Z) (w : World)
    (dbChats : list Chat.t) (c : Chat.t) :
  isDatabaseClientSet w = true →
  PostgresClient.getChatsByUserId userId updatedAt None None (server w)
    = Return dbChats →
  c ∈ chats →
  Chat.userId c ≠ userId →
  (c ∉ chatsToSync userId dbChats chats) ∧
  chatsToSync userId dbChats chats =
    chatsToSync userId dbChats (List.filter (owned userId) chats) ∧
  chatsToDelete userId dbChats chats =
    chatsToDelete userId dbChats (List.filter (owned userId) chats) ∧
  mismatch userId c ∈ (DatabaseApi.syncChats userId chats updatedAt w).2 ∧
  (DatabaseApi.syncChats userId chats updatedAt w).1.1 =
    (PostgresClient.syncChats
       (chatsToSync userId dbChats (List.filter (owned userId) chats))
       (chatsToDelete userId dbChats (List.filter (owned userId) chats))
       (server w)).1.1 ∧
  server (DatabaseApi.syncChats userId chats updatedAt w).1.2 =
    (PostgresClient.syncChats
       (chatsToSync userId dbChats (List.filter (owned userId) chats))
       (chatsToDelete userId dbChats (List.filter (owned userId) chats))
       (server w)).1.2.
Proof.
  intros Hset Hfetch Hc Hforeign.
  assert (chatsToSync userId dbChats chats =
          chatsToSync userId dbChats (List.filter (owned userId) chats)) as Hsync.
  { unfold chatsToSync. rewrite !reconcile_spec. simpl.
    by rewrite filter_owned_upserts. }
  assert (chatsToDelete userId dbChats chats =
          chatsToDelete userId dbChats (List.filter (owned userId) chats)) as Hdel.
  { unfold chatsToDelete. rewrite !reconcile_spec. simpl.
    by rewrite filter_owned_cascades. }
  assert (owned userId c = false) as Hown
    by (unfold owned; by rewrite bool_decide_eq_false_2).
  split; [|split; [done|split; [done|]]].
  - rewrite elem_of_chatsToSync. intros [_ Hup]. unfold upserts in Hup.
    by rewrite Hown in Hup.
  - assert (chats ≠ []) as Hne by (intros ->; by apply elem_of_nil in Hc).
    rewrite (syncChats_unfold _ _ _ _ dbChats Hset Hne Hfetch).
    simpl. rewrite <- Hsync, <- Hdel. split; [|done].
    apply elem_of_app. left. unfold diagnostics. rewrite reconcile_spec. simpl.
    apply list_elem_of_fmap_2, list_elem_of_In, filter_In.
    rewrite <- list_elem_of_In, Hown. done.
Qed.



(** *** Concrete calls *)





Lemma syncChats_rejects_foreign_records_witness :
  (foreign ∉ chatsToSync "u1" [mine] [foreign; deleted]) ∧
  chatsToSync "u1" [mine] [foreign; deleted] = [deleted] ∧
  mismatch "u1" foreign
    ∈ (DatabaseApi.syncChats "u1" [foreign; deleted] None live_world).2 ∧
  (DatabaseApi.syncChats "u1" [foreign; deleted] None live_world).1.1 = Return tt.
Proof.
  destruct (syncChats_rejects_foreign_records "u1" [foreign; deleted] None
              live_world [mine] foreign)
    as (Hnot & Hsync & _ & Hlog & Hres & _).
  - reflexivity.
  - reflexivity.
  - apply list_elem_of_here.
  - discriminate.
  - split; [exact Hnot|]. split; [by rewrite Hsync|]. split; [exact Hlog|].
    rewrite Hres. reflexivity.
Defined.

(** E2E scenario 2: a chat the server does not have is upserted, and
    nothing is put on [chatsToDelete]. *)
Example reconcile_unknown_chat :
  DatabaseApi.reconcile "u1" [] [chat "c1" "u1" "new" 100 None]
    = ([chat "c1" "u1" "new" 100 None], [], []).
Proof. reflexivity. Qed.

(** E2E scenario 3: a deleted client copy of a live server chat is
    upserted with its tombstone and its id is put on [chatsToDelete];
    the call removes the messages of the chat. *)
Example syncChats_client_tombstone :
  DatabaseApi.reconcile "u1" [mine] [deleted] = ([deleted], ["c1"], []) ∧
  (DatabaseApi.syncChats "u1" [deleted] None live_world).1.1 = Return tt ∧
  chat_rows (server (DatabaseApi.syncChats "u1" [deleted] None live_world).1.2)
    !! "c1" = Some (Examples.row "u1" "mine" 60 (Some 70)) ∧
  message_rows (server (DatabaseApi.syncChats "u1" [deleted] None live_world).1.2)
    = ∅.
Proof. repeat split. Qed.

(** P4: on a tie the server's copy stays. *)
Example reconcile_tie :
  DatabaseApi.reconcile "u1" [mine] [chat "c1" "u1" "other" 50 None] = ([], [], []).
Proof. reflexivity. Qed.

(** The test of the code for a tombstone is the truthiness of
    [deletedAt]: a snapshot chat whose [deletedAt] is the number 0 is
    handled as a live chat. *)
Example zero_deletedAt_is_no_tombstone :
  tombstoned (chat "c1" "u1" "mine" 50 (Some 0)) = false ∧
  DatabaseApi.reconcile "u1" [chat "c1" "u1" "mine" 50 (Some 0)] [newer]
    = ([newer], [], []).
Proof. split; reflexivity. Qed.

(** *** The page of the snapshot *)

(** [syncChats] calls [getChatsByUserId] without [limit] and [page]: the
    snapshot has at most twenty chats. *)
Lemma snapshot_at_most_twenty userId updatedAfter db dbChats :
  PostgresClient.getChatsByUserId userId updatedAfter None None db = Return dbChats →
  (length dbChats ≤ 20)%nat.
Proof.
  unfold PostgresClient.getChatsByUserId, PostgresClient.query,
    Queries.GET_CHATS_BY_USER_ID_QUERY.
  destruct (chats db) as [table|]; [|done]. simpl. intros [= <-].
  rewrite length_fmap, length_take. lia.
Qed.

(** C5, at the failing input: user [u1] has twenty-one chats on the
    server, no watermark is given, and the snapshot that [syncChats]
    fetches holds twenty of them; [c01], the least recently updated,
    is not in it. *)
Theorem snapshot_is_first_page_of_twenty :
  size (chat_rows (server busy_world)) = 21%nat ∧
  (∀ id row, chat_rows (server busy_world) !! id = Some row → c_user_id row = "u1") ∧
  chat_rows (server busy_world) !! "c01"
    = Some (Examples.row "u1" "chat" 1001 (Some 2000)) ∧
  ∃ dbChats,
    PostgresClient.getChatsByUserId "u1" None None None (server busy_world)
      = Return dbChats ∧
    length dbChats = 20%nat ∧
    Map_of dbChats !! "c01" = None.
Proof.
  split; [reflexivity|]. split; [|split; [reflexivity|]].
  - intros id row Hrow. apply elem_of_map_to_list in Hrow.
    assert (Forall (λ ir : string * ChatRow, c_user_id ir.2 = "u1")
              (map_to_list (chat_rows (server busy_world)))) as Hall.
    { vm_compute. repeat constructor. }
    rewrite Forall_forall in Hall. exact (Hall (id, row) Hrow).
  - eexists. split; [vm_compute; reflexivity|]. split; reflexivity.
Qed.

(** What follows from it: a sync of [u1] with a stale live copy of the
    deleted chat [c01] takes the chat for unknown to the server and
    writes it back without its tombstone. *)
Lemma first_page_snapshot_revives_tombstone :
  (DatabaseApi.syncChats "u1" [revival01] None busy_world).1.1 = Return tt ∧
  chat_rows (server (DatabaseApi.syncChats "u1" [revival01] None busy_world).1.2)
    !! "c01" = Some (Examples.row "u1" "revived" 1000 None).
Proof. split; vm_compute; reflexivity. Qed.

End reconciler.

(** ** Message insertion *)
Section messages.
Import Examples.

Lemma UNNEST7_messages (messages : list Message.t) :
  Queries.UNNEST7 (Message.messageId <$> messages) (Message.chatId <$> messages)
    (Message.content <$> messages) (Message.role <$> messages)
    (Message.createdAt <$> messages)
    ((λ message, Js.or_null_str (Message.imageUrl message)) <$> messages)
    ((λ message, Js.or_null_str (Message.prompt message)) <$> messages)
  = (λ message, (Message.messageId message, message_row message)) <$> messages.
Proof.
  induction messages as [|m messages IH]; [done|].
  rewrite !fmap_cons. cbn [Queries.UNNEST7]. by rewrite IH.
Qed.

Lemma insert_or_skip_keeps (rows : list (string * MessageRow)) acc k :
  is_Some (acc.1 !! k) →
  is_Some ((fold_left Queries.insert_or_skip rows acc).1 !! k).
Proof.
  revert acc. induction rows as [|r rows IH]; intros acc Hk; [done|].
  simpl. apply IH. unfold Queries.insert_or_skip.
  destruct (acc.1 !! r.1) eqn:Hr; [done|]. simpl.
  destruct (decide (r.1 = k)) as [->|Hne].
  - rewrite lookup_insert_eq. by eexists.
  - by rewrite lookup_insert_ne.
Qed.

Lemma insert_or_skip_covers (rows : list (string * MessageRow)) acc r :
  r ∈ rows → is_Some ((fold_left Queries.insert_or_skip rows acc).1 !! r.1).
Proof.
  revert acc. induction rows as [|r' rows IH]; intros acc Hr.
  - by apply elem_of_nil in Hr.
  - apply elem_of_cons in Hr as [<-|Hr]; simpl; [|by apply IH].
    apply insert_or_skip_keeps. unfold Queries.insert_or_skip.
    destruct (acc.1 !! r.1) eqn:Hacc; [by rewrite Hacc|].
    simpl. rewrite lookup_insert_eq. by eexists.
Qed.

Lemma insert_or_skip_present (rows : list (string * MessageRow)) acc :
  (∀ r, r ∈ rows → is_Some (acc.1 !! r.1)) →
  fold_left Queries.insert_or_skip rows acc = acc.
Proof.
  induction rows as [|r rows IH]; intros Hall; [done|]. simpl.
  assert (Queries.insert_or_skip acc r = acc) as ->.
  { unfold Queries.insert_or_skip.
    destruct (Hall r) as [x ->]; [by left|done]. }
  apply IH. intros r' Hr'. apply Hall. by right.
Qed.

(** The bulk path: inserting a batch a second time changes nothing and
    gives the result of the first time (it skips every row whose id the
    table already has). *)
Lemma addMessages_idempotent (batch : list Message.t) (db : Db) :
  PostgresClient.addMessages batch (PostgresClient.addMessages batch db).2 =
  PostgresClient.addMessages batch db.
Proof.
  unfold PostgresClient.addMessages.
  case_bool_decide; [done|].
  unfold PostgresClient.query, Queries.ADD_MESSAGES_QUERY.
  rewrite UNNEST7_messages.
  set (rows := (λ message, (Message.messageId message, message_row message))
                 <$> batch).
  destruct (messages db) as [table|] eqn:Htable; simpl; [|by rewrite Htable].
  destruct (fold_left Queries.insert_or_skip rows (table, [])) as [table' inserted]
    eqn:Hfold.
  destruct (forallb (Queries.references_chat db) inserted) eqn:Hfk; simpl.
  - assert (fold_left Queries.insert_or_skip rows (table', []) = (table', []))
      as ->.
    { apply insert_or_skip_present. intros r Hr. simpl.
      pose proof (insert_or_skip_covers rows (table, []) r Hr) as Hcov.
      by rewrite Hfold in Hcov. }
    done.
  - by rewrite Htable, Hfold, Hfk.
Qed.

(** The single path has no such clause: inserting an id that the table
    has throws. *)
Lemma addMessage_existing_id_throws
    (messageId chatId content role : string) (createdAt : Z)
    (imageUrl prompt : option string) (db : Db) (row : MessageRow) :
  messages db = Some (message_rows db) →
  message_rows db !! messageId = Some row →
  PostgresClient.addMessage messageId chatId content role createdAt imageUrl prompt db
    = (Throw (unique_violation "messages_pkey"), db).
Proof.
  intros Htable Hrow.
  unfold PostgresClient.addMessage, PostgresClient.query, Queries.ADD_MESSAGE_QUERY.
  rewrite Htable, Hrow. by rewrite bool_decide_eq_true_2.
Qed.

(** C6, at the failing input: chat [c1] is on the server; the first
    [addMessage] of the message [m2] returns and stores it; the same
    call again throws the unique violation of the primary key instead
    of returning silently (the store is as after the first call). *)
Theorem addMessage_twice_throws :
  (DatabaseApi.addMessage "m2" "c1" "hi" "user" 520 None None live_world).1
    = Return tt ∧
  message_rows
    (DatabaseApi.server
       (DatabaseApi.addMessage "m2" "c1" "hi" "user" 520 None None live_world).2)
    !! "m2"
    = Some {| m_chat_id := "c1"; m_content := "hi"; m_image_url := None;
              m_role := "user"; m_prompt := None; m_created_at := 520 |} ∧
  DatabaseApi.addMessage "m2" "c1" "hi" "user" 520 None None
    (DatabaseApi.addMessage "m2" "c1" "hi" "user" 520 None None live_world).2
    = (Throw (unique_violation "messages_pkey"),
       (DatabaseApi.addMessage "m2" "c1" "hi" "user" 520 None None live_world).2).
Proof. repeat split. Qed.

End messages.

(** ** The LLM facade *)
Section llm.
Import Llm Examples.

(** [getModels], [getCompletion] and [generateImage] fail on every
    response that is not 2xx. *)
Lemma request_not_ok_throws (response : Response) :
  ok response = false → ∃ e, request (Return response) = Throw e.
Proof.
  intros Hok. unfold request, throw_http_error, bind. rewrite Hok. cbn [negb].
  destruct (json response) as [errJson|e]; [|by eexists].
  destruct (get (of_json errJson) "error") as [error|e]; [|by eexists].
  destruct (get error "message") as [message|e]; by eexists.
Qed.

(** They surface [error.message] of the parsed body. *)
Lemma request_surfaces_error_message (response : Response) (errJson : Json)
    (error : value) (message : string) :
  ok response = false →
  json response = Return errJson →
  get (of_json errJson) "error" = Return error →
  get error "message" = Return (of_json (JString message)) →
  request (Return response) = Throw (Error ("HTTP error! status: " +:+ message)).
Proof.
  intros Hok Hjson Herror Hmessage. unfold request, throw_http_error, bind.
  rewrite Hok. cbn [negb]. by rewrite Hjson, Herror, Hmessage.
Qed.

(** [streamCompletion] yields the body whatever the status is. *)
Lemma streamCompletion_any_status (res : Response) (chunks : list string) :
  body res = Some chunks →
  streamCompletion (Return res) = (chunks, Return tt).
Proof. intros Hbody. unfold streamCompletion. by rewrite Hbody. Qed.

(** C7, at the failing input: on the response 401 with the body
    [{"error":{"message":"bad key"}}], [getModels] throws the error
    that carries "bad key", and [streamCompletion] yields the text of
    the error body as a chunk of the completion and ends without
    throwing. *)
Theorem streamCompletion_ignores_status :
  ok unauthorized = false ∧
  getModels (Return unauthorized)
    = (Throw (Error "HTTP error! status: bad key"),
       [error_fetching_models (Error "HTTP error! status: bad key")]) ∧
  streamCompletion (Return unauthorized) = ([bad_key_text], Return tt).
Proof. repeat split. Qed.

End llm.

(** * Further properties *)

(** ** Registration and repeated runs *)
Section migration_runner_more.
Import PostgresClient.

Lemma upgrade_loop_halt (m : gmap Z Migration) n v tx out :
  m !! v = None → upgrade_loop (S n) m v tx out = Some (Return v, tx, out).
Proof. intros Hv. cbn [upgrade_loop]. unfold Migration in *. by rewrite Hv. Qed.

(** X1. A run that returned has nothing left to do: with procedures
    that leave the version table to the runner, calling
    [initializeDatabase] again on the store it committed applies no
    procedure, prints only the version, and leaves the store as it is. *)
Theorem initializeDatabase_idempotent
    (this : PostgresClient.t) (db db' : Db) (out : list console) :
  keeps_version_table (migrations this) →
  initializeDatabase this db = Some (Return tt, db', out) →
  initializeDatabase this db' =
    Some (Return tt, db', [log_schema_version (recorded_version db')]).
Proof.
  intros Hm Hrun. unfold initializeDatabase in Hrun.
  rewrite initializeDatabase_try_unfold in Hrun.
  destruct (upgrade_loop _ _ _ _ _) as [[[[v'|e] tx'] out']|] eqn:Hloop;
    [|done|done].
  injection Hrun as <- <-. unfold COMMIT.
  destruct (ensured_version_table (BEGIN db)) as (rows & _ & Hrows & Hv).
  unfold BEGIN in Hv.
  pose proof (upgrade_loop_spec _ _ _ _ _ rows _ Hm Hloop Hrows) as Hspec.
  simpl in Hspec. destruct Hspec as (k & -> & Hnone & _ & Hvers & _).
  { rewrite Hv. apply MAX_bound. }
  assert (recorded_version tx' = recorded_version db + Z.of_nat k) as Hrec.
  { unfold recorded_version at 1. rewrite Hvers. by apply MAX_after_walk. }
  assert (walk_start tx' = tx') as Hstart.
  { unfold walk_start, Queries.CREATE_VERSION_TABLE_QUERY, BEGIN. by rewrite Hvers. }
  unfold initializeDatabase. rewrite initializeDatabase_try_unfold, Hstart, Hrec.
  by rewrite (upgrade_loop_halt _ _ _ _ _ Hnone).
Qed.

Lemma registered_entries (entries : list (Z * Migration)) (client : PostgresClient.t) :
  migrations
    (fold_left (λ client entry, registerMigration entry.1 entry.2 client)
       entries client)
  = list_to_map (reverse entries) ∪ migrations client.
Proof.
  revert client. induction entries as [|[v f] entries IH]; intros client; simpl.
  - by rewrite (left_id_L ∅ (∪)).
  - rewrite IH, reverse_cons, list_to_map_app. simpl.
    rewrite insert_empty, <- (assoc_L (∪)), <- insert_union_singleton_l. done.
Qed.

(** X2. [initializeDatabase] of the API always finishes; whatever its
    outcome the module's client is set afterwards, so later calls pass
    the guard even after a failed initialization; its client holds the
    caller's procedures over the default one for version 0, a later
    entry for a version replacing an earlier one; and when the call
    throws the server is as it was. *)
Theorem api_initializeDatabase_sets_client
    (registerMigrations : option (list (Z * Migration))) (w : DatabaseApi.World) :
  ∃ r w' out client,
    DatabaseApi.initializeDatabase registerMigrations w = Some (r, w', out) ∧
    DatabaseApi.databaseClient w' = Some client ∧
    DatabaseApi.isDatabaseClientSet w' = true ∧
    migrations client =
      list_to_map (reverse (default [] registerMigrations))
        ∪ {[ 0 := default_migration ]} ∧
    (∀ e, r = Throw e → DatabaseApi.server w' = DatabaseApi.server w).
Proof.
  unfold DatabaseApi.initializeDatabase.
  set (client := match registerMigrations with Some _ => _ | None => _ end).
  assert (migrations client =
          list_to_map (reverse (default [] registerMigrations))
            ∪ {[ 0 := default_migration ]}) as Hclient.
  { subst client. destruct registerMigrations as [entries|]; simpl.
    - by rewrite registered_entries.
    - by rewrite (left_id_L ∅ (∪)). }
  unfold initializeDatabase. rewrite initializeDatabase_try_unfold.
  destruct (upgrade_loop_total (migrations client)
              (recorded_version (DatabaseApi.server w))
              (walk_start (DatabaseApi.server w)) []) as [[[[v'|e] tx'] out'] ->].
  - eexists _, _, _, client. repeat split; [done|]. by intros e [=].
  - eexists _, _, _, client. repeat split; done.
Qed.

End migration_runner_more.

(** ** Reading chats: pages, order and count *)
Section chat_pages.
Import PostgresClient.

Local Instance updated_at_desc_total : Total Queries.updated_at_desc.
Proof. intros r1 r2. unfold Queries.updated_at_desc. lia. Qed.
Local Instance updated_at_desc_trans : Transitive Queries.updated_at_desc.
Proof. intros r1 r2 r3. unfold Queries.updated_at_desc. lia. Qed.

Lemma filter_sublist {A} (f : A → bool) (l : list A) :
  List.filter f l `sublist_of` l.
Proof.
  induction l as [|x l IH]; simpl; [constructor|].
  destruct (f x); by constructor.
Qed.

(** The ordered selection a page is cut from. *)
Lemma getChatsByUserId_page userId updatedAfter limit page db dbChats :
  getChatsByUserId userId updatedAfter limit page db = Return dbChats →
  ∃ table,
    chats db = Some table ∧
    0 ≤ default 20 limit ∧ 0 ≤ default 0 page * default 20 limit ∧
    dbChats =
      chat_of_row <$>
        take (Z.to_nat (default 20 limit))
          (drop (Z.to_nat (default 0 page * default 20 limit))
             (merge_sort Queries.updated_at_desc
                (Queries.chats_of_user userId (Js.or_null updatedAfter) table))).
Proof.
  unfold getChatsByUserId, query, Queries.GET_CHATS_BY_USER_ID_QUERY.
  destruct (chats db) as [table|]; [|done]. simpl.
  destruct (decide (default 20 limit < 0)) as [Hl|Hl].
  { by rewrite (bool_decide_eq_true_2 _ Hl). }
  rewrite (bool_decide_eq_false_2 _ Hl).
  destruct (decide (default 0 page * default 20 limit < 0)) as [Ho|Ho].
  { by rewrite (bool_decide_eq_true_2 _ Ho). }
  rewrite (bool_decide_eq_false_2 _ Ho). simpl. intros [= <-].
  exists table. repeat split; [lia|lia].
Qed.

Lemma elem_of_chats_of_user userId watermark (table : gmap string ChatRow) id row :
  (id, row) ∈ Queries.chats_of_user userId watermark table ↔
  table !! id = Some row ∧ c_user_id row = userId ∧
  Queries.updated_after watermark (c_updated_at row) = true.
Proof.
  unfold Queries.chats_of_user.
  rewrite list_elem_of_In, filter_In, <- list_elem_of_In, elem_of_map_to_list.
  simpl. rewrite andb_true_iff, bool_decide_eq_true. tauto.
Qed.

(** X3. A page of [getChatsByUserId] is ordered by [updatedAt], newest
    first; no chat is on it twice; each of its chats is the row of the
    table with that id, belongs to the user, and was updated strictly
    after the watermark when one is given (a watermark of 0 counts as
    none). *)
Theorem getChatsByUserId_page_sound
    (userId : string) (updatedAfter limit page : option Z) (db : Db)
    (dbChats : list Chat.t) :
  getChatsByUserId userId updatedAfter limit page db = Return dbChats →
  StronglySorted newest_first dbChats ∧
  NoDup (Chat.chatId <$> dbChats) ∧
  (∀ d, d ∈ dbChats →
     ∃ row, chat_rows db !! Chat.chatId d = Some row ∧
            d = chat_of_row (Chat.chatId d, row) ∧
            Chat.userId d = userId ∧
            (∀ watermark, updatedAfter = Some watermark → watermark ≠ 0 →
               watermark < Chat.updatedAt d)).
Proof.
  intros Hget.
  destruct (getChatsByUserId_page _ _ _ _ _ _ Hget) as (table & Htable & _ & _ & ->).
  set (selected := Queries.chats_of_user userId (Js.or_null updatedAfter) table).
  set (ordered := merge_sort Queries.updated_at_desc selected).
  assert (StronglySorted Queries.updated_at_desc ordered) as Hsorted
    by (apply StronglySorted_merge_sort; apply _).
  split; [|split].
  - apply (StronglySorted_fmap _ Queries.updated_at_desc); [by intros [??] [??]|].
    eapply StronglySorted_app_1_l. rewrite take_drop.
    eapply StronglySorted_app_1_r. rewrite take_drop. exact Hsorted.
  - rewrite <- list_fmap_compose.
    change (Chat.chatId ∘ chat_of_row) with (@fst string ChatRow).
    eapply sublist_NoDup; [|apply fmap_sublist; etrans;
                             [apply sublist_take|apply sublist_drop]].
    subst ordered. rewrite merge_sort_Permutation.
    eapply sublist_NoDup; [apply (NoDup_fst_map_to_list table)|].
    apply fmap_sublist, filter_sublist.
  - intros d Hd. apply list_elem_of_fmap in Hd as ([id row] & -> & Hin).
    apply (subseteq_take _ _), (subseteq_drop _ _) in Hin.
    subst ordered. rewrite merge_sort_Permutation in Hin.
    apply elem_of_chats_of_user in Hin as (Hrow & Huser & Hafter).
    exists row. simpl. unfold chat_rows. rewrite Htable. simpl.
    repeat split; [done|done|].
    intros watermark -> Hnz. unfold Js.or_null, Js.truthy in Hafter.
    rewrite (proj2 (Z.eqb_neq watermark 0) Hnz) in Hafter. simpl in Hafter.
    by apply bool_decide_eq_true in Hafter.
Qed.

(** X4. The number of chats on a page is what [countChatsByUserId]
    leaves for it: the count less the [page * limit] chats before the
    page, cut at [limit] (20 when no limit is given). *)
Theorem getChatsByUserId_page_length
    (userId : string) (updatedAfter limit page : option Z) (db : Db)
    (dbChats : list Chat.t) (total : Z) :
  getChatsByUserId userId updatedAfter limit page db = Return dbChats →
  countChatsByUserId userId updatedAfter db = Return total →
  Z.of_nat (length dbChats) =
    Z.min (default 20 limit)
      (Z.max 0 (total - default 0 page * default 20 limit)).
Proof.
  intros Hget Hcount.
  destruct (getChatsByUserId_page _ _ _ _ _ _ Hget) as (table & Htable & Hl & Ho & ->).
  unfold countChatsByUserId, query, Queries.COUNT_CHATS_BY_USER_ID_QUERY in Hcount.
  rewrite Htable in Hcount. simpl in Hcount. injection Hcount as <-.
  rewrite length_fmap, length_take, length_drop.
  rewrite (Permutation_length (merge_sort_Permutation _ _)). lia.
Qed.



End chat_pages.

(** ** Writing chats *)
Section chat_writes.
Import PostgresClient.







(** X9. [deleteChat] removes the row of the chat and, with it, every
    message of the chat; the other chats and the messages of other
    chats stay, and nothing is added.  For an id the table does not
    have the call returns and changes nothing. *)
Theorem deleteChat_cascades
    (chatId : string) (db : Db) (table : gmap string ChatRow) :
  chats db = Some table →
  (deleteChat chatId db).1 = Return tt ∧
  chat_rows (deleteChat chatId db).2 !! chatId = None ∧
  (∀ id, id ≠ chatId → chat_rows (deleteChat chatId db).2 !! id = table !! id) ∧
  (∀ id row, message_rows (deleteChat chatId db).2 !! id = Some row →
     message_rows db !! id = Some row) ∧
  (∀ id row, message_rows db !! id = Some row → m_chat_id row ≠ chatId →
     message_rows (deleteChat chatId db).2 !! id = Some row) ∧
  (is_Some (table !! chatId) →
     ∀ id row, message_rows (deleteChat chatId db).2 !! id = Some row →
       m_chat_id row ≠ chatId) ∧
  (table !! chatId = None → (deleteChat chatId db).2 = db).
Proof.
  intros Htable. unfold deleteChat, query, Queries.DELETE_CHAT_QUERY.
  rewrite Htable. destruct (table !! chatId) as [r|] eqn:Hrow; simpl.
  - unfold chat_rows, message_rows. simpl.
    split; [done|]. split; [by rewrite lookup_delete_eq|].
    split; [intros id Hne; by rewrite lookup_delete_ne|].
    destruct (messages db) as [mtable|]; simpl.
    + split; [intros id row Hin; by apply map_lookup_filter_Some in Hin as [? _]|].
      split; [intros id row Hin Hne; by apply map_lookup_filter_Some|].
      split; [|done].
      intros _ id row Hin. by apply map_lookup_filter_Some in Hin as [_ ?].
    + split; [done|]. split; [done|]. split; [|done].
      intros _ id row Hin. by rewrite lookup_empty in Hin.
  - unfold chat_rows. rewrite Htable. simpl.
    split; [done|]. split; [done|]. split; [done|]. split; [done|].
    split; [done|]. split; [by intros [? ?]|done].
Qed.

End chat_writes.

(** ** Messages *)
Section message_store.
Import PostgresClient.

Local Instance created_at_asc_total : Total Queries.created_at_asc.
Proof. intros r1 r2. unfold Queries.created_at_asc. lia. Qed.
Local Instance created_at_asc_trans : Transitive Queries.created_at_asc.
Proof. intros r1 r2 r3. unfold Queries.created_at_asc. lia. Qed.

Lemma getMessagesByChatIds_spec
    (chatIds : list string) (db : Db) (table : gmap string MessageRow) :
  messages db = Some table →
  ∃ rows,
    getMessagesByChatIds chatIds db = Return rows ∧
    (∀ id row, (id, row) ∈ rows ↔ table !! id = Some row ∧ m_chat_id row ∈ chatIds) ∧
    StronglySorted Queries.created_at_asc rows ∧
    NoDup rows.*1.
Proof.
  intros Htable.
  unfold getMessagesByChatIds, query, Queries.GET_MESSAGES_BY_CHAT_IDS_QUERY.
  rewrite Htable. simpl. eexists. split; [done|]. split; [|split].
  - intros id row. rewrite merge_sort_Permutation.
    rewrite list_elem_of_In, filter_In, <- list_elem_of_In, elem_of_map_to_list.
    simpl. by rewrite bool_decide_eq_true.
  - apply StronglySorted_merge_sort; apply _.
  - rewrite merge_sort_Permutation.
    eapply sublist_NoDup; [apply (NoDup_fst_map_to_list table)|].
    apply fmap_sublist, filter_sublist.
Qed.

(** X10. [getMessagesByChatIds] returns every message of the given
    chats and no other (there is no page here), each once, ordered by
    [created_at], oldest first. *)
Theorem getMessagesByChatIds_exact
    (chatIds : list string) (db : Db) (table : gmap string MessageRow) :
  messages db = Some table →
  ∃ rows,
    getMessagesByChatIds chatIds db = Return rows ∧
    (∀ id row, (id, row) ∈ rows ↔ table !! id = Some row ∧ m_chat_id row ∈ chatIds) ∧
    StronglySorted Queries.created_at_asc rows ∧
    NoDup rows.*1.
Proof. apply getMessagesByChatIds_spec. Qed.


Lemma insert_or_skip_keeps_value (rows : list (string * MessageRow)) acc k x :
  acc.1 !! k = Some x →
  (fold_left Queries.insert_or_skip rows acc).1 !! k = Some x.
Proof.
  revert acc. induction rows as [|r rows IH]; intros acc Hk; [done|].
  simpl. apply IH. unfold Queries.insert_or_skip.
  destruct (acc.1 !! r.1) eqn:Hr; [done|]. simpl.
  rewrite lookup_insert_ne; [done|]. intros Heq. rewrite Heq in Hr. congruence.
Qed.

Lemma insert_or_skip_inserted_mono (rows : list (string * MessageRow)) acc y :
  y ∈ acc.2 → y ∈ (fold_left Queries.insert_or_skip rows acc).2.
Proof.
  revert acc. induction rows as [|r rows IH]; intros acc Hy; [done|].
  simpl. apply IH. unfold Queries.insert_or_skip.
  destruct (acc.1 !! r.1); [done|]. simpl. apply elem_of_app. by left.
Qed.

Lemma insert_or_skip_origin (rows : list (string * MessageRow)) acc k x :
  (fold_left Queries.insert_or_skip rows acc).1 !! k = Some x →
  acc.1 !! k = Some x ∨ x ∈ (fold_left Queries.insert_or_skip rows acc).2.
Proof.
  revert acc. induction rows as [|r rows IH]; intros acc Hk; [by left|].
  simpl in *. destruct (IH _ Hk) as [Hacc|Hin]; [|by right].
  assert (acc.1 !! k = Some x ∨ x ∈ (Queries.insert_or_skip acc r).2) as [?|Hin].
  { unfold Queries.insert_or_skip in Hacc |- *.
    destruct (acc.1 !! r.1) eqn:Hr; [by left|]. simpl in *.
    apply lookup_insert_Some in Hacc as [[_ <-]|[_ Hacc]]; [|by left].
    right. apply elem_of_app. right. apply list_elem_of_here. }
  - by left.
  - right. by apply insert_or_skip_inserted_mono.
Qed.

(** The store [addMessages] leaves, when it returns and when it throws. *)
Lemma addMessages_outcome (batch : list Message.t) (db : Db) :
  (addMessages batch db).2 = db ∨
  ∃ table,
    messages db = Some table ∧
    (addMessages batch db).1 = Return tt ∧
    (addMessages batch db).2 =
      set_messages
        (Some (fold_left Queries.insert_or_skip
                 ((λ m, (Message.messageId m, message_row m)) <$> batch)
                 (table, [])).1) db ∧
    forallb (Queries.references_chat db)
      (fold_left Queries.insert_or_skip
         ((λ m, (Message.messageId m, message_row m)) <$> batch) (table, [])).2
      = true.
Proof.
  unfold addMessages. case_bool_decide; [by left|].
  unfold query, Queries.ADD_MESSAGES_QUERY. rewrite UNNEST7_messages.
  destruct (messages db) as [table|]; [|by left].
  destruct (fold_left _ _ _) as [table' inserted] eqn:Hfold.
  destruct (forallb _ inserted) eqn:Hfk; [|by left].
  right. exists table. simpl. by rewrite Hfold.
Qed.

(** X12. Messages are never changed by an insertion: after [addMessage]
    or [addMessages], whether the call returned or threw, every message
    the store had is still there with the same columns, and the chats
    are untouched; when [addMessages] returns, every id of the batch
    has a row. *)
Theorem inserts_keep_existing_messages
    (batch : list Message.t) (messageId chatId content role : string)
    (createdAt : Z) (imageUrl prompt : option string) (db : Db) :
  (∀ id row, message_rows db !! id = Some row →
     message_rows (addMessages batch db).2 !! id = Some row ∧
     message_rows
       (addMessage messageId chatId content role createdAt imageUrl prompt db).2
       !! id = Some row) ∧
  chats (addMessages batch db).2 = chats db ∧
  chats (addMessage messageId chatId content role createdAt imageUrl prompt db).2
    = chats db ∧
  ((addMessages batch db).1 = Return tt →
   ∀ m, m ∈ batch →
     is_Some (message_rows (addMessages batch db).2 !! Message.messageId m)).
Proof.
  split; [|split; [|split]].
  - intros id row Hrow. split.
    + destruct (addMessages_outcome batch db) as [->|(table & Ht & _ & -> & _)];
        [done|].
      unfold message_rows in *. rewrite Ht in Hrow. simpl in *.
      by apply insert_or_skip_keeps_value.
    + unfold addMessage, query, Queries.ADD_MESSAGE_QUERY, message_rows in *.
      destruct (messages db) as [table|] eqn:Ht; simpl in *;
        [|by rewrite lookup_empty in Hrow].
      case_bool_decide as Hex; simpl; [by rewrite Ht|].
      case_match; simpl; [|by rewrite Ht].
      rewrite lookup_insert_ne; [done|]. intros <-. apply Hex. by eexists.
  - by destruct (addMessages_outcome batch db) as [->|(table & _ & _ & -> & _)].
  - unfold addMessage, query, Queries.ADD_MESSAGE_QUERY.
    destruct (messages db) as [table|]; [|done].
    case_bool_decide; simpl; [done|]. by case_match.
  - intros Hret m Hm.
    destruct (addMessages_outcome batch db) as [Hsame|(table & Ht & _ & -> & _)].
    + unfold addMessages in *. case_bool_decide as Hlen.
      { destruct batch; [by apply elem_of_nil in Hm|done]. }
      unfold query, Queries.ADD_MESSAGES_QUERY in *.
      rewrite UNNEST7_messages in *.
      destruct (messages db) as [table|] eqn:Ht; [|done].
      destruct (fold_left _ _ _) as [table' inserted] eqn:Hfold.
      destruct (forallb _ inserted); [|done]. simpl in *.
      rewrite <- Hsame. unfold message_rows. simpl.
      pose proof (insert_or_skip_covers _ (table, [])
                    (Message.messageId m, message_row m)
                    (list_elem_of_fmap_2
                       (λ m, (Message.messageId m, message_row m)) _ _ Hm))
        as Hcov.
      by rewrite Hfold in Hcov.
    + unfold message_rows. simpl.
      apply (insert_or_skip_covers _ (table, [])
               (Message.messageId m, message_row m)).
      by apply (list_elem_of_fmap_2 (λ m, (Message.messageId m, message_row m))).
Qed.

End message_store.

(** ** Referential integrity *)
Section integrity.
Import PostgresClient.

Lemma references_hold_mono (db db' : Db) :
  (∀ id, is_Some (chat_rows db !! id) → is_Some (chat_rows db' !! id)) →
  (∀ id row, message_rows db' !! id = Some row → message_rows db !! id = Some row) →
  references_hold db → references_hold db'.
Proof. intros Hchats Hmsgs Hfk id row Hrow. eauto. Qed.

Lemma addChat_keeps_references chatId title userId updatedAt deletedAt db :
  references_hold db →
  references_hold (addChat chatId title userId updatedAt deletedAt db).2.
Proof.
  unfold addChat, query, Queries.ADD_CHAT_QUERY.
  destruct (chats db) as [table|] eqn:Ht; [|done].
  case_bool_decide; [done|]. apply references_hold_mono; [|done].
  intros id. unfold chat_rows. rewrite Ht. simpl. intros [x Hx].
  destruct (decide (chatId = id)) as [->|Hne].
  - rewrite lookup_insert_eq. by eexists.
  - rewrite lookup_insert_ne by done. by eexists.
Qed.

Lemma addChats_keeps_references batch db :
  references_hold db → references_hold (addChats batch db).2.
Proof.
  unfold addChats. case_bool_decide; [done|].
  unfold query, Queries.ADD_CHATS_QUERY.
  destruct (chats db) as [table|] eqn:Ht; [|done].
  case_match; [|done]. apply references_hold_mono; [|done].
  intros id. unfold chat_rows. rewrite Ht. simpl. apply upsert_keeps_rows.
Qed.

Lemma renameChat_keeps_references chatId title updatedAt db :
  references_hold db → references_hold (renameChat chatId title updatedAt db).2.
Proof.
  unfold renameChat, query, Queries.RENAME_CHAT_QUERY.
  destruct (chats db) as [table|] eqn:Ht; [|done].
  apply references_hold_mono; [|done].
  intros id. unfold chat_rows. rewrite Ht. simpl. intros [x Hx].
  destruct (decide (chatId = id)) as [->|Hne].
  - rewrite lookup_alter_eq, Hx. by eexists.
  - rewrite lookup_alter_ne by done. by eexists.
Qed.

Lemma deleteChat_keeps_references chatId db :
  references_hold db → references_hold (deleteChat chatId db).2.
Proof.
  unfold deleteChat, query, Queries.DELETE_CHAT_QUERY.
  destruct (chats db) as [table|] eqn:Ht; [|done].
  destruct (table !! chatId) as [r|] eqn:Hr; [|done].
  intros Hfk id row. unfold message_rows, chat_rows. simpl.
  destruct (messages db) as [mtable|] eqn:Hm; simpl;
    [|by rewrite lookup_empty].
  intros [Hrow Hne]%map_lookup_filter_Some. simpl in Hne.
  rewrite lookup_delete_ne by done.
  specialize (Hfk id row). unfold message_rows, chat_rows in Hfk.
  rewrite Hm, Ht in Hfk. by apply Hfk.
Qed.

Lemma addMessage_keeps_references
    messageId chatId content role createdAt imageUrl prompt db :
  references_hold db →
  references_hold
    (addMessage messageId chatId content role createdAt imageUrl prompt db).2.
Proof.
  unfold addMessage, query, Queries.ADD_MESSAGE_QUERY.
  destruct (messages db) as [mtable|] eqn:Hm; [|done].
  case_bool_decide; [done|].
  destruct (Queries.references_chat db _) eqn:Hchat; [|done].
  intros Hfk id row. unfold message_rows, chat_rows. simpl.
  intros [[<- <-]|[_ Hrow]]%lookup_insert_Some.
  - unfold Queries.references_chat in Hchat. simpl in *.
    destruct (chats db) as [table|]; [|done]. simpl.
    by apply bool_decide_eq_true in Hchat.
  - apply (Hfk id row). unfold message_rows. by rewrite Hm.
Qed.

Lemma addMessages_keeps_references batch db :
  references_hold db → references_hold (addMessages batch db).2.
Proof.
  intros Hfk.
  destruct (addMessages_outcome batch db) as [->|(table & Ht & _ & -> & Hall)];
    [done|].
  intros id row. unfold message_rows, chat_rows. simpl. intros Hrow.
  destruct (insert_or_skip_origin _ (table, []) _ _ Hrow) as [Hold|Hnew].
  - apply (Hfk id row). unfold message_rows. by rewrite Ht.
  - rewrite forallb_forall in Hall.
    specialize (Hall row (proj1 (list_elem_of_In _ _) Hnew)).
    unfold Queries.references_chat in Hall.
    destruct (chats db) as [ctable|]; [|done]. simpl.
    by apply bool_decide_eq_true in Hall.
Qed.

Lemma syncChats_keeps_references sync del db :
  references_hold db → references_hold (PostgresClient.syncChats sync del db).1.2.
Proof.
  destruct (syncChats_outcome sync del db)
    as (r & db' & out & -> & [->|(_ & _ & _ & _ & Hchats & Hmsgs)]); simpl;
    [done|].
  apply references_hold_mono.
  - intros id. rewrite Hchats. apply upsert_keeps_rows.
  - intros id row. rewrite Hmsgs. by intros [? _]%map_lookup_filter_Some.
Qed.

(** X13. Every write operation keeps the reference of [messages.chat_id]
    to [chats.id]: on a store where each message belongs to an existing
    chat, this still holds after [addChat], [addChats], [renameChat],
    [deleteChat], [addMessage], [addMessages] and [syncChats], whether
    the call returned or threw. *)
Theorem writes_keep_references
    (db : Db) (chatId title userId content role messageId : string)
    (updatedAt createdAt : Z) (deletedAt : option Z)
    (imageUrl prompt : option string) (chatBatch sync : list Chat.t)
    (messageBatch : list Message.t) (del : list string) :
  references_hold db →
  references_hold (addChat chatId title userId updatedAt deletedAt db).2 ∧
  references_hold (addChats chatBatch db).2 ∧
  references_hold (renameChat chatId title updatedAt db).2 ∧
  references_hold (deleteChat chatId db).2 ∧
  references_hold
    (addMessage messageId chatId content role createdAt imageUrl prompt db).2 ∧
  references_hold (addMessages messageBatch db).2 ∧
  references_hold (PostgresClient.syncChats sync del db).1.2.
Proof.
  intros Hfk.
  split; [by apply addChat_keeps_references|].
  split; [by apply addChats_keeps_references|].
  split; [by apply renameChat_keeps_references|].
  split; [by apply deleteChat_keeps_references|].
  split; [by apply addMessage_keeps_references|].
  split; [by apply addMessages_keeps_references|].
  by apply syncChats_keeps_references.
Qed.

End integrity.

(** ** What [syncChats] writes *)
Section sync_writes.
Import DatabaseApi Examples.

Lemma syncChats_try_cases (sync : list Chat.t) (del : list string) (db : Db) :
  match PostgresClient.syncChats_try sync del db with
  | (Return _, tx) =>
      (sync = [] ∨ (is_Some (chats db) ∧ NoDup (Chat.chatId <$> sync))) ∧
      (del = [] ∨ is_Some (messages db)) ∧
      chat_rows tx =
        fold_left Queries.upsert_row
          ((λ chat, (Chat.chatId chat, row_of chat)) <$> sync) (chat_rows db) ∧
      message_rows tx = filter (λ kv, m_chat_id kv.2 ∉ del) (message_rows db)
  | (Throw e, tx) =>
      (sync ≠ [] ∧ chats db = None ∧ e = undefined_table "chats") ∨
      (is_Some (chats db) ∧ ¬ NoDup (Chat.chatId <$> sync) ∧
       e = cardinality_violation) ∨
      ((sync = [] ∨ (is_Some (chats db) ∧ NoDup (Chat.chatId <$> sync))) ∧
       del ≠ [] ∧ messages db = None ∧ e = undefined_table "messages")
  end.
Proof.
  assert (∀ tx : Db, message_rows tx =
            filter (λ kv : string * MessageRow, m_chat_id kv.2 ∉ @nil string)
              (message_rows tx)) as Hnodel.
  { intros tx. symmetry. apply map_filter_id. intros ? ? _. apply not_elem_of_nil. }
  unfold PostgresClient.syncChats_try, and_then.
  destruct sync as [|c sync].
  - rewrite (bool_decide_eq_false_2 (0 < length (@nil Chat.t))%nat) by (simpl; lia).
    destruct del as [|d del].
    + rewrite (bool_decide_eq_false_2 (0 < length (@nil string))%nat)
        by (simpl; lia).
      split; [by left|]. split; [by left|]. split; [done|]. apply Hnodel.
    + rewrite (bool_decide_eq_true_2 (0 < length (d :: del))%nat) by (simpl; lia).
      unfold Queries.DELETE_MESSAGES_BY_CHAT_IDS.
      destruct (messages db) as [mtable|] eqn:Hm.
      * split; [by left|]. split; [by right|]. split; [done|].
        unfold message_rows. simpl. by rewrite Hm.
      * right. right. split; [by left|]. done.
  - rewrite (bool_decide_eq_true_2 (0 < length (c :: sync))%nat) by (simpl; lia).
    unfold Queries.UPSERT_CHATS_QUERY. rewrite UNNEST5_chats.
    destruct (chats db) as [table|] eqn:Ht; [|by left].
    rewrite <- list_fmap_compose.
    change (fst ∘ (λ chat : Chat.t, (Chat.chatId chat, row_of chat)))
      with Chat.chatId.
    destruct (decide (NoDup (Chat.chatId <$> c :: sync))) as [Hnodup|Hdup].
    2:{ rewrite (bool_decide_eq_false_2 _ Hdup). right. left. by split. }
    rewrite (bool_decide_eq_true_2 _ Hnodup).
    assert (chat_rows (set_chats (Some (fold_left Queries.upsert_row
              ((λ chat, (Chat.chatId chat, row_of chat)) <$> c :: sync) table)) db)
            = fold_left Queries.upsert_row
                ((λ chat, (Chat.chatId chat, row_of chat)) <$> c :: sync)
                (chat_rows db)) as Hrows
      by (unfold chat_rows; simpl; by rewrite Ht).
    destruct del as [|d del].
    + rewrite (bool_decide_eq_false_2 (0 < length (@nil string))%nat)
        by (simpl; lia).
      split; [by right|]. split; [by left|]. split; [done|]. exact (Hnodel db).
    + rewrite (bool_decide_eq_true_2 (0 < length (d :: del))%nat) by (simpl; lia).
      unfold Queries.DELETE_MESSAGES_BY_CHAT_IDS. simpl messages.
      destruct (messages db) as [mtable|] eqn:Hm.
      * split; [by right|]. split; [by right|]. split; [done|].
        unfold message_rows. simpl. by rewrite Hm.
      * right. right. split; [by right|]. done.
Qed.

Lemma syncChats_exact
    (sync : list Chat.t) (del : list string) (db : Db) :
  ((PostgresClient.syncChats sync del db).1.1 = Return tt ↔
   (sync = [] ∨ (is_Some (chats db) ∧ NoDup (Chat.chatId <$> sync))) ∧
   (del = [] ∨ is_Some (messages db))) ∧
  ((PostgresClient.syncChats sync del db).1.1 = Return tt →
   (∀ c, c ∈ sync →
      chat_rows (PostgresClient.syncChats sync del db).1.2 !! Chat.chatId c
        = Some (row_of c)) ∧
   (∀ id row,
      message_rows (PostgresClient.syncChats sync del db).1.2 !! id = Some row →
      m_chat_id row ∉ del)) ∧
  (∀ e, (PostgresClient.syncChats sync del db).1.1 = Throw e →
     (PostgresClient.syncChats sync del db).1.2 = db ∧
     (PostgresClient.syncChats sync del db).2 = [error_chat_sync_failed e]).
Proof.
  pose proof (syncChats_try_cases sync del db) as Htry.
  unfold PostgresClient.syncChats.
  destruct (bool_decide (length sync = 0%nat) && bool_decide (length del = 0%nat))
    eqn:Hempty.
  { apply andb_true_iff in Hempty as [Hs Hd].
    apply bool_decide_eq_true in Hs, Hd.
    destruct sync; [|done]. destruct del; [|done]. simpl.
    split; [split; [by intros _; split; left|done]|].
    split; [|done]. intros _. split.
    - intros c Hc. by apply elem_of_nil in Hc.
    - intros id row _. apply not_elem_of_nil. }
  unfold BEGIN, COMMIT, ROLLBACK.
  destruct (PostgresClient.syncChats_try sync del db) as [[[]|e] tx]; simpl.
  - destruct Htry as (Hup & Hdel & Hchats & Hmsgs).
    split; [by split|]. split; [|done]. intros _. split.
    + intros c Hc. rewrite Hchats.
      destruct Hup as [->|[_ Hnodup]]; [by apply elem_of_nil in Hc|].
      by apply upsert_writes_record.
    + intros id row. rewrite Hmsgs. by intros [_ ?]%map_lookup_filter_Some.
  - split; [split; [done|]|split; [done|by intros ? [= ->]]].
    intros [Hup Hdel].
    destruct Htry as [(Hne & Hnone & _)|[(_ & Hdup & _)|(_ & Hne & Hnone & _)]].
    + destruct Hup as [->|[[? Hsome] _]]; [done|congruence].
    + destruct Hup as [->|[_ ?]]; [|done]. destruct Hdup. constructor.
    + destruct Hdel as [->|[? Hsome]]; [done|congruence].
Qed.


(** X15. A batch that leads to two upserts with one [chatId] makes the
    whole call fail: [PostgresClient.syncChats] throws the cardinality
    violation of the upsert, prints it, and changes nothing. *)
Theorem syncChats_duplicate_ids_fail
    (sync : list Chat.t) (del : list string) (db : Db) :
  is_Some (chats db) →
  ¬ NoDup (Chat.chatId <$> sync) →
  PostgresClient.syncChats sync del db =
    (Throw cardinality_violation, db, [error_chat_sync_failed cardinality_violation]).
Proof.
  intros [table Ht] Hdup.
  pose proof (syncChats_try_cases sync del db) as Htry.
  unfold PostgresClient.syncChats.
  destruct sync as [|c sync]; [destruct Hdup; constructor|].
  rewrite (bool_decide_eq_false_2 (length (c :: sync) = 0%nat)) by done. simpl andb.
  cbv iota. unfold BEGIN, ROLLBACK.
  destruct (PostgresClient.syncChats_try (c :: sync) del db) as [[[]|e] tx].
  - destruct Htry as ([|[_ ?]] & _); done.
  - destruct Htry as [(_ & Hnone & _)|[(_ & _ & ->)|([|[_ ?]] & _)]];
      [congruence|done|done|done].
Qed.

(** X16. The ownership test of [syncChats] looks at the [userId] the
    client wrote into the record only.  When the store holds a chat of
    another user under the [chatId] of a record of the batch that names
    the target user, the snapshot of the target user does not hold the
    chat, the record is upserted as for an unknown chat, and after a
    call that returns the row is the client's record: the chat has
    changed its owner. *)
Theorem syncChats_overwrites_foreign_row
    (userId : string) (chats : list Chat.t) (updatedAt : option Z) (w : World)
    (c : Chat.t) (row : ChatRow) :
  c ∈ chats →
  Chat.userId c = userId →
  chat_rows (server w) !! Chat.chatId c = Some row →
  c_user_id row ≠ userId →
  (DatabaseApi.syncChats userId chats updatedAt w).1.1 = Return tt →
  chat_rows (server (DatabaseApi.syncChats userId chats updatedAt w).1.2)
    !! Chat.chatId c = Some (row_of c) ∧
  c_user_id (row_of c) = userId.
Proof.
  intros Hc Hown Hrow Hforeign Hret. split; [|done].
  assert (chats ≠ []) as Hne by (intros ->; by apply elem_of_nil in Hc).
  destruct (isDatabaseClientSet w) eqn:Hset;
    [|unfold DatabaseApi.syncChats in Hret; by rewrite Hset in Hret].
  destruct (PostgresClient.getChatsByUserId userId updatedAt None None (server w))
    as [dbChats|e] eqn:Hfetch.
  2:{ unfold DatabaseApi.syncChats in Hret. rewrite Hset, Hfetch in Hret. simpl in Hret.
      by rewrite bool_decide_eq_false_2 in Hret by (by destruct chats). }
  rewrite (syncChats_unfold _ _ _ _ dbChats Hset Hne Hfetch) in Hret |- *.
  simpl in *.
  destruct (syncChats_exact (chatsToSync userId dbChats chats)
              (chatsToDelete userId dbChats chats) (server w))
    as (_ & Hwrites & _).
  destruct (Hwrites Hret) as [Hstored _]. apply Hstored.
  apply elem_of_chatsToSync. split; [done|]. unfold upserts, owned.
  rewrite bool_decide_eq_true_2 by done. simpl.
  destruct (Map_of dbChats !! Chat.chatId c) as [d|] eqn:Hd; [|done].
  destruct (Map_of_lookup _ _ _ Hd) as [Hin Hid].
  destruct (getChatsByUserId_sound _ _ _ _ _ _ _ Hfetch Hin)
    as (row' & Hrow' & _ & Huser & _).
  rewrite Hid in Hrow'. congruence.
Qed.

(** X17. The two cases of the loop of [syncChats] in which a record of
    the target user is always written.  A record whose id the snapshot
    does not have is put on [chatsToSync] whatever its time stamps, and
    its id is on [chatsToDelete] exactly when a record of the user with
    this id carries a tombstone.  A record with a tombstone whose chat
    is live in the snapshot is put on [chatsToSync] and its id on
    [chatsToDelete], whatever the two [updatedAt] are. *)
Theorem unknown_or_deleted_chat_is_upserted
    (userId : string) (dbChats chats : list Chat.t) (c : Chat.t) :
  c ∈ chats →
  Chat.userId c = userId →
  (Map_of dbChats !! Chat.chatId c = None →
     c ∈ chatsToSync userId dbChats chats ∧
     (Chat.chatId c ∈ chatsToDelete userId dbChats chats ↔
      ∃ c', c' ∈ chats ∧ Chat.userId c' = userId ∧
            Chat.chatId c' = Chat.chatId c ∧ tombstoned c' = true)) ∧
  (∀ d, Map_of dbChats !! Chat.chatId c = Some d →
     tombstoned d = false → tombstoned c = true →
     c ∈ chatsToSync userId dbChats chats ∧
     Chat.chatId c ∈ chatsToDelete userId dbChats chats).
Proof.
  intros Hc Hown.
  assert (owned userId c = true) as Hown'
    by (unfold owned; by rewrite bool_decide_eq_true_2).
  split.
  - intros Hnone. split.
    + apply elem_of_chatsToSync. split; [done|]. unfold upserts.
      by rewrite Hown', Hnone.
    + rewrite elem_of_chatsToDelete. split.
      * intros (c' & Hc' & Hid & Hcas). exists c'. split; [done|].
        unfold cascades, owned in Hcas.
        apply andb_true_iff in Hcas as [Hcas _].
        apply andb_true_iff in Hcas as [Ho Ht].
        by apply bool_decide_eq_true in Ho.
      * intros (c' & Hc' & Hu & Hid & Ht). exists c'. split; [done|].
        split; [done|]. unfold cascades, owned.
        rewrite bool_decide_eq_true_2 by done. by rewrite Ht, Hid, Hnone.
  - intros d Hd Hlive Hdead. split.
    + apply elem_of_chatsToSync. split; [done|]. unfold upserts.
      by rewrite Hown', Hd, Hlive, Hdead.
    + apply elem_of_chatsToDelete. exists c. split; [done|]. split; [done|].
      unfold cascades. by rewrite Hown', Hdead, Hd, Hlive.
Qed.

End sync_writes.

(** ** The calls of the LLM facade that parse a body *)
Section llm_more.
Import Llm Examples.

(** X18. [getModels], [getCompletion] and [generateImage] throw on every
    response that is not 2xx, each after one [console.error]; when the
    parsed body holds a string at [error.message], the error thrown is
    [Error] with the message "HTTP error! status: " followed by that
    string; a body that does not parse makes the call throw what the
    parser threw. *)
Theorem json_calls_fail_on_non_2xx (response : Response) :
  ok response = false →
  ∃ e,
    getModels (Return response) = (Throw e, [error_fetching_models e]) ∧
    getCompletion (Return response) = (Throw e, [error_creating_completion e]) ∧
    generateImage (Return response)
      = (Throw e, [error_generating_image (Js.message_of e)]) ∧
    (∀ errJson error message,
       json response = Return errJson →
       get (of_json errJson) "error" = Return error →
       get error "message" = Return (of_json (JString message)) →
       e = Error ("HTTP error! status: " +:+ message)) ∧
    (∀ e', json response = Throw e' → e = e').
Proof.
  intros Hok. destruct (request_not_ok_throws response Hok) as [e He].
  exists e. unfold getModels, getCompletion, generateImage. rewrite He.
  repeat split.
  - intros errJson error message Hjson Herror Hmessage.
    rewrite (request_surfaces_error_message _ _ _ _ Hok Hjson Herror Hmessage) in He.
    congruence.
  - intros e' Hjson. unfold request, throw_http_error, bind in He.
    rewrite Hok, Hjson in He. simpl in He. congruence.
Qed.

(** X19. The three calls return exactly when [fetch] resolved, the
    status is 2xx and the body parses, and what they return is the
    parsed body; nothing is printed then. *)
Theorem json_calls_return_iff (fetched : result Response) (data : Json) :
  (getModels fetched = (Return data, []) ↔
   ∃ response, fetched = Return response ∧ ok response = true ∧
               json response = Return data) ∧
  (getModels fetched).1 = (getCompletion fetched).1 ∧
  (getModels fetched).1 = (generateImage fetched).1.
Proof.
  split; [|split].
  - unfold getModels, request, bind. split.
    + destruct fetched as [response|e]; [|done].
      destruct (ok response) eqn:Hok; simpl.
      * destruct (json response) as [j|e] eqn:Hj; [|done].
        intros [= ->]. by exists response.
      * destruct (request_not_ok_throws response Hok) as [e He].
        unfold request, bind in He. rewrite Hok in He. simpl in He.
        by rewrite He.
    + intros (response & -> & Hok & Hj). by rewrite Hok, Hj.
  - unfold getModels, getCompletion. by destruct (request fetched).
  - unfold getModels, generateImage. by destruct (request fetched).
Qed.

End llm_more.

(** ** Counting messages *)
Section message_count.
Import PostgresClient.

(** X20. Without a watermark, [countMessagesByUserId] counts what
    [getMessagesByChatIds] returns for the chats of the user: for a
    list [chatIds] that holds exactly the ids of the user's chats, the
    count is the number of rows read. *)
Theorem countMessagesByUserId_counts_read
    (userId : string) (chatIds : list string) (db : Db)
    (table : gmap string ChatRow) (rows : list (string * MessageRow)) :
  chats db = Some table →
  (∀ id, id ∈ chatIds ↔ ∃ c, table !! id = Some c ∧ c_user_id c = userId) →
  getMessagesByChatIds chatIds db = Return rows →
  countMessagesByUserId userId None db = Return (Z.of_nat (length rows)).
Proof.
  intros Ht Hids.
  unfold getMessagesByChatIds, countMessagesByUserId, query,
    Queries.GET_MESSAGES_BY_CHAT_IDS_QUERY, Queries.COUNT_MESSAGES_BY_USER_ID_QUERY.
  rewrite Ht. destruct (messages db) as [mtable|]; [|done]. simpl.
  intros [= <-]. rewrite (Permutation_length (merge_sort_Permutation _ _)).
  do 3 f_equal. apply filter_ext. intros r.
  destruct (table !! m_chat_id r.2) as [c|] eqn:Hc.
  - rewrite andb_true_r. apply bool_decide_ext. rewrite Hids. split.
    + intros ?. by exists c.
    + intros (c' & Hc' & ?). congruence.
  - symmetry. apply bool_decide_eq_false_2. rewrite Hids.
    intros (c' & Hc' & _). congruence.
Qed.

End message_count.

(** ** Instances of the properties with preconditions *)
Section instances.
Import Examples.

Lemma initializeDatabase_idempotent_witness :
  ∃ db',
    PostgresClient.initializeDatabase readme_client fresh_store
      = Some (Return tt, db', upgrading [0; 1; 2] ++ [log_schema_version 3]) ∧
    PostgresClient.initializeDatabase readme_client db'
      = Some (Return tt, db', [log_schema_version (recorded_version db')]).
Proof.
  eexists. split; [vm_compute; reflexivity|].
  eapply (initializeDatabase_idempotent readme_client fresh_store).
  - exact readme_client_keeps_version_table.
  - vm_compute. reflexivity.
Defined.

Lemma getChatsByUserId_page_sound_witness :
  StronglySorted newest_first [mine] ∧ NoDup (Chat.chatId <$> [mine]).
Proof.
  destruct (getChatsByUserId_page_sound "u1" None None None (DatabaseApi.server live_world)
              [mine]) as (Hsorted & Hnodup & _).
  - reflexivity.
  - by split.
Defined.

Lemma getChatsByUserId_page_length_witness :
  Z.of_nat (length [mine]) =
    Z.min (default 20 None) (Z.max 0 (1 - default 0 None * default 20 None)).
Proof.
  apply (getChatsByUserId_page_length "u1" None None None (DatabaseApi.server live_world)
           [mine] 1); reflexivity.
Defined.





Lemma deleteChat_cascades_witness :
  (PostgresClient.deleteChat "c1" (DatabaseApi.server live_world)).1 = Return tt ∧
  chat_rows (PostgresClient.deleteChat "c1" (DatabaseApi.server live_world)).2 !! "c1" = None.
Proof.
  destruct (deleteChat_cascades "c1" (DatabaseApi.server live_world)
              {[ "c1" := Examples.row "u1" "mine" 50 None ]} eq_refl)
    as (Hret & Hgone & _).
  by split.
Defined.

Lemma getMessagesByChatIds_exact_witness :
  ∃ rows,
    PostgresClient.getMessagesByChatIds ["c1"] (DatabaseApi.server live_world) = Return rows ∧
    NoDup rows.*1.
Proof.
  destruct (getMessagesByChatIds_exact ["c1"] (DatabaseApi.server live_world)
              {[ "m1" := hello ]} eq_refl) as (rows & Hget & _ & _ & Hnodup).
  by exists rows.
Defined.

Lemma live_world_references_hold : references_hold (DatabaseApi.server live_world).
Proof.
  intros id row. unfold message_rows, chat_rows. simpl.
  intros [_ <-]%lookup_singleton_Some. simpl. rewrite lookup_singleton_eq.
  by eexists.
Qed.

Lemma writes_keep_references_witness :
  references_hold (PostgresClient.deleteChat "c1" (DatabaseApi.server live_world)).2 ∧
  references_hold (PostgresClient.syncChats [deleted] ["c1"] (DatabaseApi.server live_world)).1.2.
Proof.
  destruct (writes_keep_references (DatabaseApi.server live_world) "c1" "t" "u1" "hi" "user"
              "m2" 60 70 None None None [mine] [deleted] [] ["c1"]
              live_world_references_hold)
    as (_ & _ & _ & Hdelete & _ & _ & Hsync).
  by split.
Defined.

Lemma syncChats_duplicate_ids_fail_witness :
  PostgresClient.syncChats [newer; deleted] ["c1"] (DatabaseApi.server live_world) =
    (Throw cardinality_violation, DatabaseApi.server live_world,
     [error_chat_sync_failed cardinality_violation]).
Proof.
  apply syncChats_duplicate_ids_fail.
  - eexists. reflexivity.
  - intros [Hnot _]%NoDup_cons. apply Hnot. apply list_elem_of_here.
Defined.

Lemma syncChats_overwrites_foreign_row_witness :
  chat_rows (DatabaseApi.server (DatabaseApi.syncChats "u2" [foreign] None live_world).1.2)
    !! Chat.chatId foreign = Some (row_of foreign) ∧
  c_user_id (row_of foreign) = "u2".
Proof.
  apply (syncChats_overwrites_foreign_row "u2" [foreign] None live_world foreign
           (Examples.row "u1" "mine" 50 None)).
  - apply list_elem_of_here.
  - reflexivity.
  - reflexivity.
  - discriminate.
  - reflexivity.
Defined.

Lemma unknown_or_deleted_chat_is_upserted_witness :
  deleted ∈ chatsToSync "u1" [mine] [deleted] ∧
  Chat.chatId deleted ∈ chatsToDelete "u1" [mine] [deleted].
Proof.
  destruct (unknown_or_deleted_chat_is_upserted "u1" [mine] [deleted] deleted)
    as [_ Hlive].
  - apply list_elem_of_here.
  - reflexivity.
  - apply (Hlive mine); reflexivity.
Defined.

Lemma json_calls_fail_on_non_2xx_witness :
  ∃ e, Llm.getModels (Return unauthorized) = (Throw e, [error_fetching_models e]).
Proof.
  destruct (json_calls_fail_on_non_2xx unauthorized eq_refl) as (e & Hmodels & _).
  by exists e.
Defined.

Lemma countMessagesByUserId_counts_read_witness :
  PostgresClient.countMessagesByUserId "u1" None (DatabaseApi.server live_world)
    = Return (Z.of_nat (length [("m1", hello)])).
Proof.
  apply (countMessagesByUserId_counts_read "u1" ["c1"] (DatabaseApi.server live_world)
           {[ "c1" := Examples.row "u1" "mine" 50 None ]}).
  - reflexivity.
  - intros id. rewrite list_elem_of_singleton. split.
    + intros ->. eexists. split; reflexivity.
    + intros (c & Hc & _). by apply lookup_singleton_Some in Hc as [? _].
  - reflexivity.
Defined.

End instances.
